(** * screenshot-service: the GoFullPage HTTP API server

    A shallow embedding of [gofullpage_server.js]: the [capture] method of
    [GoFullPageServer], the request handler installed by [main], and the
    interleaving of several handlers over the one shared browser.

    The browser (puppeteer) is an external collaborator.  Every [await] on it
    is a node of a program tree whose continuation receives whatever the
    browser answers, a value or a thrown error, so each statement below holds
    for every behaviour of the browser. *)

From Stdlib.Strings Require Import Ascii Byte.
From Stdlib.QArith Require Import QArith_base Qcanon.
From stdpp Require Import base option strings list sorting gmap gmultiset pretty.

Local Open Scope string_scope.
Local Open Scope list_scope.
Local Open Scope Z_scope.

(** ** JavaScript values *)

(** The values an option field can hold.  A query-string parameter is a
    string, or an array of strings when the parameter is given more than
    once; a field of a JSON body is a JSON primitive or an array; a missing
    field reads as [undefined].  [JNum n] is the integer-valued number [n],
    of a magnitude a JavaScript number holds exactly (below 2^53).  Strings
    are sequences of UTF-8 bytes.  Fractional numbers, and objects as the
    value of a field, are outside this embedding: an object with a member
    [toString] of its own makes the conversions of [capture] throw. *)
#[warnings="-register-all"]
Inductive jsval : Type :=
| JUndef
| JNull
| JBool (b : bool)
| JNum (n : Z)
| JStr (s : string)
| JArr (items : list jsval).

#[global] Instance jsval_eq_dec : EqDecision jsval.
Proof.
  refine (fix go (a b : jsval) {struct a} : Decision (a = b) :=
    match a, b with
    | JUndef, JUndef | JNull, JNull => left _
    | JBool x, JBool y => cast_if (decide (x = y))
    | JNum x, JNum y => cast_if (decide (x = y))
    | JStr x, JStr y => cast_if (decide (x = y))
    | JArr x, JArr y => cast_if (@list_eq_dec _ go x y)
    | _, _ => right _
    end); clear go; congruence.
Defined.

Definition is_array (v : jsval) : bool :=
  match v with JArr _ => true | _ => false end.

(** [!v] is [negb (truthy v)]; every array is truthy, the empty one too. *)
Definition truthy (v : jsval) : bool :=
  match v with
  | JUndef | JNull => false
  | JBool b => b
  | JNum n => negb (n =? 0)
  | JStr s => negb (String.eqb s "")
  | JArr _ => true
  end.

(** [a === b].  Primitives are compared by value.  An array is equal to
    itself only, and the code compares a field with a string or boolean
    literal only, so a comparison with an array on either side is false. *)
Definition strict_eq (a b : jsval) : bool :=
  match a, b with
  | JArr _, _ | _, JArr _ => false
  | _, _ => bool_decide (a = b)
  end.

(** [a || b]. *)
Definition js_or (a b : jsval) : jsval := if truthy a then a else b.

Module Scan.
(** Character scanning shared by [parseInt] and the string-to-number
    conversion. *)

(** White space and line terminators of one byte: TAB, LF, VT, FF, CR and
    the space. *)
Definition is_ws (a : ascii) : bool :=
  let n := Ascii.nat_of_ascii a in
  ((9 <=? n) && (n <=? 13))%nat || (n =? 32)%nat.

(** Of two bytes: the no-break space U+00A0. *)
Definition is_ws2 (a b : ascii) : bool :=
  ((Ascii.nat_of_ascii a =? 194) && (Ascii.nat_of_ascii b =? 160))%nat.

(** Of three bytes: U+1680, U+2000 to U+200A, the line and paragraph
    separators U+2028 and U+2029, U+202F, U+205F, U+3000 and the byte order
    mark U+FEFF. *)
Definition is_ws3 (a b c : ascii) : bool :=
  let x := Ascii.nat_of_ascii a in
  let y := Ascii.nat_of_ascii b in
  let z := Ascii.nat_of_ascii c in
  ((x =? 225) && (y =? 154) && (z =? 128)
   || (x =? 226) && (y =? 128)
      && ((128 <=? z) && (z <=? 138) || (z =? 168) || (z =? 169) || (z =? 175))
   || (x =? 226) && (y =? 129) && (z =? 159)
   || (x =? 227) && (y =? 128) && (z =? 128)
   || (x =? 239) && (y =? 187) && (z =? 191))%nat.

(** Leading white space is dropped. *)
Fixpoint skip_ws (s : string) : string :=
  match s with
  | String a s1 =>
      if is_ws a then skip_ws s1
      else
        match s1 with
        | String b s2 =>
            if is_ws2 a b then skip_ws s2
            else
              match s2 with
              | String c s3 => if is_ws3 a b c then skip_ws s3 else s
              | EmptyString => s
              end
        | EmptyString => s
        end
  | EmptyString => s
  end.

(** The same on a string read backwards. *)
Fixpoint skip_ws_back (s : string) : string :=
  match s with
  | String a s1 =>
      if is_ws a then skip_ws_back s1
      else
        match s1 with
        | String b s2 =>
            if is_ws2 b a then skip_ws_back s2
            else
              match s2 with
              | String c s3 => if is_ws3 c b a then skip_ws_back s3 else s
              | EmptyString => s
              end
        | EmptyString => s
        end
  | EmptyString => s
  end.

Definition trim (s : string) : string :=
  String.rev (skip_ws_back (String.rev (skip_ws s))).

Definition digit_val (radix : Z) (a : ascii) : option Z :=
  let n := Z.of_nat (Ascii.nat_of_ascii a) in
  let d := if (48 <=? n) && (n <=? 57) then n - 48
           else if (97 <=? n) && (n <=? 122) then n - 87
           else if (65 <=? n) && (n <=? 90) then n - 55
           else radix in
  if d <? radix then Some d else None.

(** The longest prefix of digits, read in [radix]; [acc] is [None] until a
    digit has been seen. *)
Fixpoint digits (radix : Z) (s : string) (acc : option Z) : option Z :=
  match s with
  | String a s' =>
      match digit_val radix a with
      | Some d => digits radix s' (Some (radix * default 0 acc + d))
      | None => acc
      end
  | EmptyString => acc
  end.

Fixpoint all_digits (radix : Z) (s : string) : bool :=
  match s with
  | String a s' => bool_decide (is_Some (digit_val radix a)) && all_digits radix s'
  | EmptyString => true
  end.

(** A string of digits and nothing else, at least one. *)
Definition numeral (radix : Z) (s : string) : bool :=
  negb (String.eqb s "") && all_digits radix s.

(** The number a string of digits stands for. *)
Definition value (radix : Z) (s : string) : Z := default 0 (digits radix s None).

(** The longest prefix of decimal digits, and what follows it. *)
Fixpoint span_digits (s : string) : string * string :=
  match s with
  | String a s' =>
      if bool_decide (is_Some (digit_val 10 a))
      then let '(d, r) := span_digits s' in (String a d, r)
      else (EmptyString, s)
  | EmptyString => (EmptyString, EmptyString)
  end.

Definition split_sign (s : string) : Z * string :=
  match s with
  | String "-" s' => (-1, s')
  | String "+" s' => (1, s')
  | _ => (1, s)
  end.

Definition split_radix (s : string) : Z * string :=
  match s with
  | String "0" (String "x" s') | String "0" (String "X" s') => (16, s')
  | _ => (10, s)
  end.

(** The radix a prefix [0x], [0o] or [0b] announces, in either case. *)
Definition prefix_radix (c : ascii) : option Z :=
  if bool_decide (c ∈ ["x"; "X"]%char) then Some 16
  else if bool_decide (c ∈ ["o"; "O"]%char) then Some 8
  else if bool_decide (c ∈ ["b"; "B"]%char) then Some 2
  else None.
End Scan.

(** [ToString(v)], as used by [parseInt], by template literals and for a
    property key.  An array is its elements joined with commas, [null] and
    [undefined] among them left empty. *)
Fixpoint ToString (v : jsval) : string :=
  match v with
  | JUndef => "undefined"
  | JNull => "null"
  | JBool true => "true"
  | JBool false => "false"
  | JNum n => pretty n
  | JStr s => s
  | JArr items =>
      (fix join (l : list jsval) : string :=
         match l with
         | [] => ""
         | [x] => match x with JUndef | JNull => "" | _ => ToString x end
         | x :: l' =>
             match x with JUndef | JNull => "" | _ => ToString x end
             +:+ "," +:+ join l'
         end) items
  end.

(** The integer nearest to [n] among those a double holds, ties to the even
    mantissa. *)
Definition to_double (n : Z) : Z :=
  let a := Z.abs n in
  if a <? 2 ^ 53 then n
  else
    let e := Z.log2 a - 52 in
    let q := a / 2 ^ e in
    let r := a mod 2 ^ e in
    let half := 2 ^ (e - 1) in
    let q' := if (half <? r) || (r =? half) && Z.odd q then q + 1 else q in
    Z.sgn n * (q' * 2 ^ e).

(** [parseInt(string)]: leading white space, a sign, an optional [0x], then
    the longest run of digits, and the result as a double; [None] is [NaN].
    A run of digits that stands for 2^1024 or more is [Infinity] in
    JavaScript, which [option Z] does not hold: such strings are outside
    this embedding. *)
Definition parseInt_string (s : string) : option Z :=
  let '(sign, s1) := Scan.split_sign (Scan.skip_ws s) in
  let '(radix, s2) := Scan.split_radix s1 in
  (fun n => to_double (sign * n)) <$> Scan.digits radix s2 None.

(** [parseInt(v)] is [parseInt(ToString(v))]; on an integer-valued number
    that is the number itself. *)
Definition parseInt (v : jsval) : option Z :=
  match v with
  | JNum n => Some n
  | _ => parseInt_string (ToString v)
  end.

(** What a numeric literal denotes, before it is rounded to a double:
    [NaN], an infinity, or [mantissa * 10 ^ exponent] with its sign. *)
Inductive number : Set :=
| NaN
| Infinity (negative : bool)
| Finite (negative : bool) (mantissa : Z) (exponent : Z).

(** A literal with a prefix: [0x], [0o] or [0b] and digits of that radix,
    without a sign.  [None] when the string has no such prefix. *)
Definition non_decimal (t : string) : option number :=
  match t with
  | String "0" (String c ds) =>
      match Scan.prefix_radix c with
      | Some radix =>
          Some (if Scan.numeral radix ds then Finite false (Scan.value radix ds) 0
                else NaN)
      | None => None
      end
  | _ => None
  end.

(** The exponent part of a decimal literal, [e] or [E] and a signed integer;
    [Some 0] when there is none, [None] when it is malformed. *)
Definition exponent_part (s : string) : option Z :=
  match s with
  | EmptyString => Some 0
  | String c s' =>
      if bool_decide (c ∈ ["e"; "E"]%char) then
        let '(sign, ds) := Scan.split_sign s' in
        if Scan.numeral 10 ds then Some (sign * Scan.value 10 ds) else None
      else None
  end.

(** A decimal literal: a sign, then [Infinity], or digits with an optional
    fraction and an optional exponent, a digit at least before or after the
    point. *)
Definition decimal (t : string) : number :=
  let '(sign, u) := Scan.split_sign t in
  let negative := sign <? 0 in
  if String.eqb u "Infinity" then Infinity negative
  else
    let '(int, r1) := Scan.span_digits u in
    let '(frac, r2) := match r1 with
                       | String "." r => Scan.span_digits r
                       | _ => (EmptyString, r1)
                       end in
    if String.eqb int "" && String.eqb frac "" then NaN
    else
      match exponent_part r2 with
      | Some e =>
          Finite negative (Scan.value 10 (int +:+ frac)) (e - Z.of_nat (String.length frac))
      | None => NaN
      end.

(** [StringToNumber]: the string converts as a whole, white space trimmed at
    both ends, and the empty string is 0. *)
Definition StringToNumber (s : string) : number :=
  let t := Scan.trim s in
  if String.eqb t "" then Finite false 0 0
  else
    match non_decimal t with
    | Some x => x
    | None => decimal t
    end.

(** [ToNumber(v)]; an array converts by way of its string. *)
Definition ToNumber (v : jsval) : number :=
  match v with
  | JUndef => NaN
  | JNull => Finite false 0 0
  | JBool b => Finite false (if b then 1 else 0) 0
  | JNum n => Finite (n <? 0) (Z.abs n) 0
  | JStr s => StringToNumber s
  | JArr _ => StringToNumber (ToString v)
  end.

(** The double nearest to [x] is above zero: [x] is positive and more than
    half the least positive double, 2^-1074, a tie going to zero. *)
Definition above_zero (x : number) : bool :=
  match x with
  | NaN => false
  | Infinity negative => negb negative
  | Finite negative m e =>
      negb negative && (if 0 <=? e then 0 <? m else 10 ^ (- e) <? m * 2 ^ 1075)
  end.

(** [v > 0]; a comparison with [NaN] is false. *)
Definition gt_zero (v : jsval) : bool := above_zero (ToNumber v).

(** ** Errors, browser calls and program trees *)

(** A thrown [Error] object: the handler reads only [error.message]. *)
Record js_error : Set := { name : string; message : string }.

#[global] Instance js_error_eq_dec : EqDecision js_error.
Proof. solve_decision. Defined.

(** [new Error(msg)]. *)
Definition Error (msg : string) : js_error := {| name := "Error"; message := msg |}.

(** How a promise settles. *)
Inductive outcome (A : Type) : Type :=
| Resolved (a : A)
| Rejected (e : js_error).
Arguments Resolved {A} a.
Arguments Rejected {A} e.

(** A page handle, as returned by [browser.newPage()]. *)
Definition page : Set := nat.

(** What the in-page script of [capture] reports back. *)
Record dimensions : Set := { dim_width : Z; dim_height : Z; dim_title : string }.

(** The awaited calls on the browser, with the arguments [capture] passes. *)
Inductive call : Set :=
| NewPage
| SetViewport (p : page) (width height : option Z) (isMobile : bool)
| Goto (p : page) (target : jsval) (waitUntil : string) (timeout : option Z)
| HideSticky (p : page)
| GetDimensions (p : page)
| Pdf (p : page)
| Screenshot (p : page) (fullPage : bool) (type : string) (quality : option Z)
| ClosePage (p : page).

#[global] Instance call_eq_dec : EqDecision call.
Proof. solve_decision. Defined.

Definition reply (c : call) : Set :=
  match c with
  | NewPage => page
  | GetDimensions _ => dimensions
  | Pdf _ | Screenshot _ _ _ _ => list byte
  | SetViewport _ _ _ _ | Goto _ _ _ _ | HideSticky _ | ClosePage _ => unit
  end.

(** An async function body: it returns, throws, awaits a browser call and
    goes on with what the browser answered, waits on [setTimeout], or reads
    the clock. *)
Inductive prog (R : Type) : Type :=
| Ret (r : R)
| Throw (e : js_error)
| Await (c : call) (k : outcome (reply c) -> prog R)
| Sleep (ms : option Z) (k : prog R)
| Now (k : string -> prog R).
Arguments Ret {R} r.
Arguments Throw {R} e.
Arguments Await {R} c k.
Arguments Sleep {R} ms k.
Arguments Now {R} k.

Fixpoint bind {R S : Type} (m : prog R) (f : R -> prog S) : prog S :=
  match m with
  | Ret r => f r
  | Throw e => Throw e
  | Await c k => Await c (fun o => bind (k o) f)
  | Sleep ms k => Sleep ms (bind k f)
  | Now k => Now (fun t => bind (k t) f)
  end.

#[global] Instance prog_ret : MRet prog := @Ret.
#[global] Instance prog_bind : MBind prog := fun _ _ f m => bind m f.

(** [await c]: a rejected promise is rethrown. *)
Definition await (c : call) : prog (reply c) :=
  Await c (fun o => match o with Resolved a => Ret a | Rejected e => Throw e end).

(** [await new Promise(r => setTimeout(r, ms))]. *)
Definition sleep (ms : option Z) : prog unit := Sleep ms (Ret tt).

(** [new Date().toISOString()]. *)
Definition now : prog string := Now Ret.

(** [try { m } finally { fin }]: [fin] runs however [m] ends; when [fin]
    itself throws, that error replaces the outcome of [m]. *)
Fixpoint try_finally {R : Type} (m : prog R) (fin : prog unit) : prog R :=
  match m with
  | Ret r => bind fin (fun _ => Ret r)
  | Throw e => bind fin (fun _ => Throw e)
  | Await c k => Await c (fun o => try_finally (k o) fin)
  | Sleep ms k => Sleep ms (try_finally k fin)
  | Now k => Now (fun t => try_finally (k t) fin)
  end.

(** [try { m } catch (error) { h error }]. *)
Fixpoint try_catch {R : Type} (m : prog R) (h : js_error -> prog R) : prog R :=
  match m with
  | Ret r => Ret r
  | Throw e => h e
  | Await c k => Await c (fun o => try_catch (k o) h)
  | Sleep ms k => Sleep ms (try_catch k h)
  | Now k => Now (fun t => try_catch (k t) h)
  end.

(** ** Running a program against a browser *)

(** One entry of the log of an execution.  [d] is the time in milliseconds
    the awaited call took; a [setTimeout] wait takes the time it was given. *)
Inductive event : Type :=
| EvAwait (c : call) (o : outcome (reply c)) (d : Z)
| EvSleep (ms : option Z)
| EvNow (t : string).

(** The world outside the server: how the browser settles each call and how
    long it takes, given everything that happened before, and the clock. *)
Record world : Type := {
  answer : forall c : call, list event -> outcome (reply c);
  takes : call -> list event -> Z;
  clock : list event -> string
}.

(** [run w hist m] runs [m] to the end; it returns the log, [hist] followed
    by the events of [m], and the way [m] ended. *)
Fixpoint run {R : Type} (w : world) (hist : list event) (m : prog R)
  : list event * outcome R :=
  match m with
  | Ret r => (hist, Resolved r)
  | Throw e => (hist, Rejected e)
  | Await c k =>
      let o := answer w c hist in
      run w (hist ++ [EvAwait c o (takes w c hist)]) (k o)
  | Sleep ms k => run w (hist ++ [EvSleep ms]) k
  | Now k => let t := clock w hist in run w (hist ++ [EvNow t]) (k t)
  end.

(** ** [GoFullPageServer.capture] *)

(** The [options] object: the query string or the JSON body, read by name. *)
Abbreviation Options := (gmap string jsval).

(** [options.k], [undefined] when absent. *)
Definition field (o : Options) (k : string) : jsval := default JUndef (o !! k).

(** A destructuring default, [{ k = d } = options]: it applies to
    [undefined] only. *)
Definition or_default (v d : jsval) : jsval :=
  match v with JUndef => d | _ => v end.

Record Metadata : Set := {
  url : jsval;
  format : jsval;
  pageWidth : Z;
  pageHeight : Z;
  title : string;
  viewport : string;
  mobile : jsval;
  timestamp : string;
  size : Z
}.

Record capture_result : Set := {
  success : bool;
  data : list byte;
  metadata : Metadata
}.

Definition capture (options : Options) : prog capture_result :=
  let targetUrl := field options "targetUrl" in
  let format := or_default (field options "format") (JStr "png") in
  let width := or_default (field options "width") (JNum 1280) in
  let height := or_default (field options "height") (JNum 800) in
  let mobile := or_default (field options "mobile") (JBool false) in
  let hideSticky := or_default (field options "hideSticky") (JBool true) in
  let delay := or_default (field options "delay") (JNum 0) in
  let timeout := or_default (field options "timeout") (JNum 30000) in
  if negb (truthy targetUrl) then Throw (Error "URL is required")
  else
    page ← await NewPage;
    try_finally
      (await (SetViewport page (parseInt width) (parseInt height)
                (strict_eq mobile (JStr "true") || strict_eq mobile (JBool true)));;
       await (Goto page targetUrl "networkidle2" (parseInt timeout));;
       (if gt_zero delay then sleep (parseInt delay) else Ret tt);;
       (if negb (strict_eq hideSticky (JStr "false"))
           && negb (strict_eq hideSticky (JBool false))
        then await (HideSticky page) else Ret tt);;
       dimensions ← await (GetDimensions page);
       result ← (if strict_eq format (JStr "pdf") then await (Pdf page)
                 else await (Screenshot page true
                               (if strict_eq format (JStr "jpeg") then "jpeg" else "png")
                               (if strict_eq format (JStr "jpeg") then Some 85 else None)));
       timestamp ← now;
       Ret {| success := true;
              data := result;
              metadata := {| url := targetUrl;
                             format := format;
                             pageWidth := dim_width dimensions;
                             pageHeight := dim_height dimensions;
                             title := dim_title dimensions;
                             viewport := ToString width +:+ "x" +:+ ToString height;
                             mobile := mobile;
                             timestamp := timestamp;
                             size := Z.of_nat (length result) |} |})
      (await (ClosePage page)).

(** ** The response object *)

(** A header value: a primitive, or a member that the lookup in the
    content-type table inherits from [Object.prototype] (node then sends its
    string form). *)
Inductive header_value : Set :=
| HVal (v : jsval)
| HProto (k : string).

(** A field of a JSON body; [JBase64 b] is [b.toString('base64')]. *)
Inductive json_value : Set :=
| JV (v : jsval)
| JBase64 (b : list byte).

(** What [res.end] was given. *)
Inductive content : Set :=
| Empty
| Binary (b : list byte)
| Json (fields : list (string * json_value))
| Html.

(** [http.ServerResponse], as far as the handler uses it. *)
Record response : Type := {
  statusCode : Z;
  headers : gmap string header_value;
  headersSent : bool;
  body : option content
}.

Definition fresh_response : response :=
  {| statusCode := 200; headers := ∅; headersSent := false; body := None |}.

Definition dquote : string := String (ascii_of_nat 34) "".

Definition ERR_HTTP_HEADERS_SENT (verb : string) : js_error :=
  {| name := "Error";
     message := "Cannot " +:+ verb +:+ " headers after they are sent to the client" |}.

Definition ERR_HTTP_INVALID_HEADER_VALUE (header : string) : js_error :=
  {| name := "TypeError";
     message := "Invalid value " +:+ dquote +:+ "undefined" +:+ dquote
                +:+ " for header " +:+ dquote +:+ header +:+ dquote |}.

(** A call on [res] changes the object and may throw; the change made before
    the throw stays. *)
Definition res_op : Type := response -> response * option js_error.

Definition setHeader (k : string) (v : header_value) : res_op := fun res =>
  if headersSent res then (res, Some (ERR_HTTP_HEADERS_SENT "set"))
  else
    match v with
    | HVal JUndef => (res, Some (ERR_HTTP_INVALID_HEADER_VALUE k))
    | _ => ({| statusCode := statusCode res;
               headers := <[k := v]> (headers res);
               headersSent := false;
               body := body res |}, None)
    end.

(** The headers of [writeHead] are set one by one, in the order of the
    object literal, up to the first that is refused. *)
Fixpoint setHeaders (hs : list (string * header_value)) : res_op := fun res =>
  match hs with
  | [] => (res, None)
  | (k, v) :: hs' =>
      match setHeader k v res with
      | (res', None) => setHeaders hs' res'
      | (res', Some e) => (res', Some e)
      end
  end.

Definition writeHead (code : Z) (hs : list (string * header_value)) : res_op := fun res =>
  if headersSent res then (res, Some (ERR_HTTP_HEADERS_SENT "write"))
  else
    match setHeaders hs {| statusCode := code; headers := headers res;
                           headersSent := false; body := body res |} with
    | (res', None) => ({| statusCode := statusCode res'; headers := headers res';
                          headersSent := true; body := body res' |}, None)
    | (res', Some e) => (res', Some e)
    end.

Definition end_ (b : content) : res_op := fun res =>
  ({| statusCode := statusCode res; headers := headers res;
      headersSent := true; body := Some b |}, None).

(** Two calls on [res] in sequence. *)
Definition then_ (f g : res_op) : res_op := fun res =>
  match f res with
  | (res', None) => g res'
  | (res', Some e) => (res', Some e)
  end.

(** A call on [res] outside any [try]: an exception leaves the handler. *)
Definition unguarded (f : res_op) (res : response) : prog response :=
  match f res with
  | (res', None) => Ret res'
  | (_, Some e) => Throw e
  end.

(** [JSON.stringify] of an object literal leaves out the fields whose value
    is [undefined]. *)
Definition defined (v : json_value) : bool :=
  match v with JV JUndef => false | _ => true end.

Definition stringify (fields : list (string * json_value)) : content :=
  Json (List.filter (fun kv => defined kv.2) fields).

(** ** The request handler of [main] *)

(** How the promise that collects and parses a POST body settles:
    [JSON.parse] gives an object or another JSON value, or it throws and the
    promise rejects with [Invalid JSON], or the request stream fails. *)
Inductive request_body : Type :=
| BodyObject (o : Options)
| BodyValue (v : jsval)
| BodyInvalid
| BodyFailed (e : js_error).

(** What [url.parse(req.url, true)] makes of the request target: the path
    and the query object, or the exception it throws on a target it cannot
    parse, a [URIError] for one whose authority part does not decode.  A
    target without a path has the pathname [null], which is none of the
    routes; any string that is no route stands for it. *)
Inductive request_target : Type :=
| Parsed (pathname : string) (query : Options)
| Unparsable (e : js_error).

(** [decodeURIComponent] on a malformed escape. *)
Definition URI_malformed : js_error :=
  {| name := "URIError"; message := "URI malformed" |}.

(** An incoming request: [req.method], the request target as [url.parse]
    reads it, and the body. *)
Record request : Type := {
  method : string;
  target : request_target;
  posted : request_body
}.

Definition hex_digit (n : nat) : ascii :=
  ascii_of_nat (if (n <? 10)%nat then 48 + n else 55 + n)%nat.

Definition unreserved (a : ascii) : bool :=
  let n := nat_of_ascii a in
  ((48 <=? n) && (n <=? 57) || (65 <=? n) && (n <=? 90) || (97 <=? n) && (n <=? 122))%nat
  || bool_decide (a ∈ ["-"; "_"; "."; "!"; "~"; "*"; "'"; "("; ")"]%char).

(** [encodeURIComponent] on the UTF-8 bytes of a string. *)
Fixpoint encodeURIComponent (s : string) : string :=
  match s with
  | EmptyString => EmptyString
  | String a s' =>
      if unreserved a then String a (encodeURIComponent s')
      else
        let n := nat_of_ascii a in
        String "%" (String (hex_digit (n / 16)) (String (hex_digit (n mod 16))
          (encodeURIComponent s')))
  end.

(** The members every object literal inherits from [Object.prototype]. *)
Definition object_prototype : list string :=
  ["constructor"; "__defineGetter__"; "__defineSetter__"; "hasOwnProperty";
   "__lookupGetter__"; "__lookupSetter__"; "isPrototypeOf";
   "propertyIsEnumerable"; "toString"; "valueOf"; "__proto__"; "toLocaleString"].

(** [{ png: 'image/png', jpeg: 'image/jpeg', pdf: 'application/pdf' }[key]]. *)
Definition contentType (key : jsval) : header_value :=
  let k := ToString key in
  if String.eqb k "png" then HVal (JStr "image/png")
  else if String.eqb k "jpeg" then HVal (JStr "image/jpeg")
  else if String.eqb k "pdf" then HVal (JStr "application/pdf")
  else if bool_decide (k ∈ object_prototype) then HProto k
  else HVal JUndef.

Definition json_header : list (string * header_value) :=
  [("Content-Type", HVal (JStr "application/json"))].

(** The [options] the handler builds: the JSON body or the query string, with
    [targetUrl] set from [url].  Reading [url] from [null] throws; on another
    value that is no object it reads [undefined], and the assignment is
    dropped on a primitive and sets a member that [capture] does not read on
    an array.  The handler gets here with a target that has parsed. *)
Definition read_options (req : request) : prog Options :=
  if String.eqb (method req) "POST" then
    match posted req with
    | BodyObject o => Ret (<["targetUrl" := field o "url"]> o)
    | BodyValue JNull =>
        Throw {| name := "TypeError";
                 message := "Cannot read properties of null (reading 'url')" |}
    | BodyValue _ => Ret ∅
    | BodyInvalid => Throw (Error "Invalid JSON")
    | BodyFailed e => Throw e
    end
  else
    match target req with
    | Parsed _ query => Ret (<["targetUrl" := field query "url"]> query)
    | Unparsable e => Throw e
    end.

(** The two ways the handler sends a finished capture. *)
Definition send_result (options : Options) (result : capture_result) : res_op :=
  let returnJson := field options "returnJson" in
  let m := metadata result in
  if strict_eq returnJson (JStr "true") || strict_eq returnJson (JBool true) then
    then_ (writeHead 200 json_header)
          (end_ (stringify
                   [("url", JV (url m)); ("format", JV (format m));
                    ("pageWidth", JV (JNum (pageWidth m)));
                    ("pageHeight", JV (JNum (pageHeight m)));
                    ("title", JV (JStr (title m)));
                    ("viewport", JV (JStr (viewport m)));
                    ("mobile", JV (mobile m));
                    ("timestamp", JV (JStr (timestamp m)));
                    ("size", JV (JNum (size m)));
                    ("data", JBase64 (data result))]))
  else
    then_ (writeHead 200
             [("Content-Type", contentType (js_or (field options "format") (JStr "png")));
              ("Content-Length", HVal (JNum (Z.of_nat (length (data result)))));
              ("X-Page-Title", HVal (JStr (encodeURIComponent (title m))));
              ("X-Page-Width", HVal (JNum (pageWidth m)));
              ("X-Page-Height", HVal (JNum (pageHeight m)))])
          (end_ (Binary (data result))).

(** The [catch] block. *)
Definition send_error (error : js_error) : res_op :=
  then_ (writeHead 500 json_header)
        (end_ (stringify [("success", JV (JBool false));
                          ("error", JV (JStr (message error)))])).

(** [try { m }], with the way it ended made a value, so that what follows can
    go on with the response object as the [try] block left it. *)
Definition settle {R : Type} (m : prog R) : prog (outcome R) :=
  try_catch (bind m (fun r => Ret (Resolved r))) (fun e => Ret (Rejected e)).

(** What the handler does with the way the [try] block up to [capture]
    ended: it sends the result, and runs the [catch] block when sending
    throws; or it runs the [catch] block at once. *)
Definition conclude (attempt : outcome (Options * capture_result)) : res_op := fun res =>
  match attempt with
  | Resolved (options, result) =>
      match send_result options result res with
      | (res', None) => (res', None)
      | (res', Some error) => send_error error res'
      end
  | Rejected error => send_error error res
  end.

(** The [/screenshot] branch: the [try] block, then the [catch] block on the
    response object as the [try] block left it.  An exception of the [catch]
    block itself leaves the handler. *)
Definition screenshot (req : request) (res : response) : prog response :=
  attempt ← settle (options ← read_options req;
                    result ← capture options;
                    Ret (options, result));
  unguarded (conclude attempt) res.

Definition cors : res_op :=
  then_ (setHeader "Access-Control-Allow-Origin" (HVal (JStr "*")))
  (then_ (setHeader "Access-Control-Allow-Methods" (HVal (JStr "GET, POST, OPTIONS")))
         (setHeader "Access-Control-Allow-Headers" (HVal (JStr "Content-Type")))).

(** The callback given to [http.createServer]; [res] is the response object
    node hands to it.  The target is parsed before anything else and outside
    any [try]: an exception of [url.parse] leaves the callback with no header
    set and nothing sent. *)
Definition handler (req : request) (res : response) : prog response :=
  match target req with
  | Unparsable e => Throw e
  | Parsed pathname _ =>
      res ← unguarded cors res;
      if String.eqb (method req) "OPTIONS" then
        unguarded (then_ (writeHead 204 []) (end_ Empty)) res
      else if String.eqb pathname "/health" then
        res ← unguarded (writeHead 200 json_header) res;
        timestamp ← now;
        unguarded (end_ (stringify [("status", JV (JStr "ok"));
                                    ("timestamp", JV (JStr timestamp))])) res
      else if String.eqb pathname "/screenshot" then screenshot req res
      else if String.eqb pathname "/" then
        unguarded (then_ (writeHead 200 [("Content-Type", HVal (JStr "text/html"))])
                         (end_ Html)) res
      else
        unguarded (then_ (writeHead 404 json_header)
                         (end_ (stringify [("error", JV (JStr "Not found"))]))) res
  end.

(** ** Every execution of a program *)

(** [always m Q]: however the browser settles the calls of [m], the events
    [m] produces and the way it ends satisfy [Q]. *)
Fixpoint always {R : Type} (m : prog R) (Q : list event -> outcome R -> Prop) : Prop :=
  match m with
  | Ret r => Q [] (Resolved r)
  | Throw e => Q [] (Rejected e)
  | Await c k => forall o d, always (k o) (fun tr => Q (EvAwait c o d :: tr))
  | Sleep ms k => always k (fun tr => Q (EvSleep ms :: tr))
  | Now k => forall t, always (k t) (fun tr => Q (EvNow t :: tr))
  end.

(** One move of a suspended program: the pending call settles, the timer
    fires, or the clock is read. *)
Definition hstep {R : Type} (m : prog R) (ev : event) (m' : prog R) : Prop :=
  match m with
  | Await c k => exists o d, ev = EvAwait c o d /\ m' = k o
  | Sleep ms k => ev = EvSleep ms /\ m' = k
  | Now k => exists t, ev = EvNow t /\ m' = k t
  | Ret _ | Throw _ => False
  end.

(** [follows m log m']: [m] has produced the events [log] and is now [m']. *)
Inductive follows {R : Type} (m : prog R) : list event -> prog R -> Prop :=
| follows_nil : follows m [] m
| follows_snoc log m' ev m'' :
    follows m log m' -> hstep m' ev m'' -> follows m (log ++ [ev]) m''.

(** ** Reading a log *)

(** The handle a [newPage] call handed out. *)
Definition checkout (ev : event) : option page :=
  match ev with
  | EvAwait c o _ =>
      match c return outcome (reply c) -> option page with
      | NewPage => fun o => match o with Resolved p => Some p | Rejected _ => None end
      | _ => fun _ => None
      end o
  | _ => None
  end.

(** The handle a [page.close()] call gives back.  The call releases the
    handle however it settles: puppeteer rejects a close only when the page
    is already gone. *)
Definition checkin (ev : event) : option page :=
  match ev with
  | EvAwait (ClosePage p) _ _ => Some p
  | _ => None
  end.

(** The page handles checked out of the browser and not yet closed. *)
Definition track (open : gmultiset page) (ev : event) : gmultiset page :=
  match checkout ev, checkin ev with
  | Some p, _ => open ⊎ {[+ p +]}
  | None, Some p => open ∖ {[+ p +]}
  | None, None => open
  end.

Definition open_pages (tr : list event) : gmultiset page := foldl track ∅ tr.

(** The page a call works on. *)
Definition on_page (ev : event) : option page :=
  match ev with
  | EvAwait (SetViewport p _ _ _) _ _ | EvAwait (Goto p _ _ _) _ _
  | EvAwait (HideSticky p) _ _ | EvAwait (GetDimensions p) _ _
  | EvAwait (Pdf p) _ _ | EvAwait (Screenshot p _ _ _) _ _
  | EvAwait (ClosePage p) _ _ => Some p
  | _ => None
  end.

(** The handle one attempt holds, event by event: [hold h ev] is the handle
    held after [ev] when [h] was held before, or [None] when [ev] breaks the
    discipline of one handle, opened once, used while held, closed once. *)
Definition hold (h : option page) (ev : event) : option (option page) :=
  match checkout ev, checkin ev, h with
  | Some p, _, None => Some (Some p)
  | Some _, _, Some _ => None
  | None, Some q, Some p => if decide (q = p) then Some None else None
  | None, Some _, None => None
  | None, None, _ =>
      match on_page ev with
      | Some q => if decide (h = Some q) then Some h else None
      | None => Some h
      end
  end.

Fixpoint holding (h : option page) (tr : list event) : option (option page) :=
  match tr with
  | [] => Some h
  | ev :: tr' =>
      match hold h ev with
      | Some h' => holding h' tr'
      | None => None
      end
  end.

(** The error a call was rejected with. *)
Definition rejection (ev : event) : option js_error :=
  match ev with
  | EvAwait _ (Rejected e) _ => Some e
  | _ => None
  end.

(** The arguments of a [page.screenshot] call: [fullPage], [type],
    [quality]. *)
Definition shot (ev : event) : option (bool * string * option Z) :=
  match ev with
  | EvAwait (Screenshot _ fullPage type quality) _ _ => Some (fullPage, type, quality)
  | _ => None
  end.

Definition is_pdf (ev : event) : bool :=
  match ev with
  | EvAwait (Pdf _) _ _ => true
  | _ => false
  end.

(** The bytes a capture call, [page.screenshot] or [page.pdf], resolved
    with. *)
Definition captured (ev : event) : option (list byte) :=
  match ev with
  | EvAwait c o _ =>
      match c return outcome (reply c) -> option (list byte) with
      | Pdf _ | Screenshot _ _ _ _ =>
          fun o => match o with Resolved b => Some b | Rejected _ => None end
      | _ => fun _ => None
      end o
  | _ => None
  end.

(** The arguments of a [page.goto] call: the target and the [timeout]. *)
Definition navigation (ev : event) : option (jsval * option Z) :=
  match ev with
  | EvAwait (Goto _ target _ timeout) _ _ => Some (target, timeout)
  | _ => None
  end.

(** The delay node gives a timer: below 1, above [2^31 - 1] or [NaN], it is
    set to 1. *)
Definition timer_delay (ms : option Z) : Z :=
  match ms with
  | Some n => if (1 <=? n) && (n <=? 2147483647) then n else 1
  | None => 1
  end.

(** The time an event took, in milliseconds. *)
Definition elapsed (ev : event) : Z :=
  match ev with
  | EvAwait _ _ d => d
  | EvSleep ms => timer_delay ms
  | EvNow _ => 0
  end.

(** The steps of an attempt that take time on their own account: the
    navigation, the wait of [delay], the capture. *)
Definition timed_step (ev : event) : bool :=
  match ev with
  | EvAwait (Goto _ _ _ _) _ _ | EvAwait (Pdf _) _ _
  | EvAwait (Screenshot _ _ _ _) _ _ | EvSleep _ => true
  | _ => false
  end.

(** The time limit a request asks for, [parseInt(timeout)] with the default
    of 30000. *)
Definition timeoutMs (options : Options) : option Z :=
  parseInt (or_default (field options "timeout") (JNum 30000)).

(** ** URL syntax *)

Definition is_alpha (a : ascii) : bool :=
  let n := nat_of_ascii a in
  ((65 <=? n) && (n <=? 90) || (97 <=? n) && (n <=? 122))%nat.

Definition is_scheme_char (a : ascii) : bool :=
  let n := nat_of_ascii a in
  is_alpha a || ((48 <=? n) && (n <=? 57))%nat
  || bool_decide (a ∈ ["+"; "-"; "."]%char).

Fixpoint scheme_rest (s : string) : bool :=
  match s with
  | String ":" _ => true
  | String a s' => is_scheme_char a && scheme_rest s'
  | EmptyString => false
  end.

(** An absolute URL starts with a scheme, a letter followed by letters,
    digits, [+], [-] or [.], and a colon (RFC 3986, section 4.3).  A string
    that fails this test is not an absolute URL in any reading. *)
Definition has_scheme (s : string) : bool :=
  match s with
  | String a s' => is_alpha a && scheme_rest s'
  | EmptyString => false
  end.

(** The [url] of a request is acceptable only if it is a string with the
    syntax of an absolute URL; the empty string has none. *)
Definition absolute_url (v : jsval) : bool :=
  match v with
  | JStr s => has_scheme s
  | _ => false
  end.

(** ** Several requests in flight *)

(** Node runs each handler until its next [await] and resumes it when the
    awaited call settles; handlers of different requests interleave at these
    points.  The state of the server is the handlers in flight, each
    suspended at its pending await or finished, and the pages the one shared
    browser has open. *)
Record server : Type := {
  inflight : list (prog response);
  pages : gmultiset page
}.

(** A batch of requests arrives: each handler is started with a response
    object of its own. *)
Definition boot (requests : list request) : server :=
  {| inflight := (fun req => handler req fresh_response) <$> requests;
     pages := ∅ |}.

(** One handler moves, the others stay as they are. *)
Inductive sstep (s : server) : server -> Prop :=
| sstep_handler i m ev m' :
    inflight s !! i = Some m ->
    hstep m ev m' ->
    sstep s {| inflight := <[i := m']> (inflight s); pages := track (pages s) ev |}.

(** An exception that leaves a handler is an unhandled rejection: node ends
    the process, and every request still in flight with it. *)
Definition crashed (s : server) : Prop :=
  exists i e, inflight s !! i = Some (Throw e).

(** A handler that has returned, with the response it sent. *)
Definition answered (m : prog response) : option response :=
  match m with
  | Ret res => Some res
  | _ => None
  end.

(** A handler that can still move. *)
Definition pending {R : Type} (m : prog R) : bool :=
  match m with
  | Ret _ | Throw _ => false
  | _ => true
  end.

(** The pending call of [m] settles as the world [w] has it. *)
Definition advance {R : Type} (w : world) (m : prog R) : option (event * prog R) :=
  match m with
  | Await c k => Some (EvAwait c (answer w c []) (takes w c []), k (answer w c []))
  | Sleep ms k => Some (EvSleep ms, k)
  | Now k => Some (EvNow (clock w []), k (clock w []))
  | Ret _ | Throw _ => None
  end.

(** The handler in slot [i] moves, its pending call settled by [w]. *)
Definition serve (w : world) (i : nat) (s : server) : server :=
  match inflight s !! i ≫= advance w with
  | Some (ev, m') =>
      {| inflight := <[i := m']> (inflight s); pages := track (pages s) ev |}
  | None => s
  end.

(** No execution from [s] goes on for ever. *)
Definition terminating (s : server) : Prop :=
  Acc (fun s2 s1 => sstep s1 s2) s.

(** The pages that the handlers with the logs [logs] hold between them. *)
Definition held (logs : list (list event)) : gmultiset page :=
  foldr (fun log acc => open_pages log ⊎ acc) ∅ logs.

(** The handle an attempt holds, as a set of pages. *)
Definition handle_set (h : option page) : gmultiset page :=
  match h with
  | Some p => {[+ p +]}
  | None => ∅
  end.

(** The server is handling [requests]: slot by slot, the handler in flight
    is the handler of the request after a log of its own, and the pages the
    browser has open are those that these logs have checked out. *)
Definition serving (requests : list request) (s : server) : Prop :=
  exists logs,
    Forall3 (fun req m log => follows (handler req fresh_response) log m)
      requests (inflight s) logs /\
    pages s = held logs.

(** One program is one move ahead of another. *)
Definition hnext {R : Type} (m' m : prog R) : Prop := exists ev, hstep m ev m'.

(** One list of handlers is one move ahead of another. *)
Definition lnext {R : Type} (l' l : list (prog R)) : Prop :=
  exists i m ev m', l !! i = Some m /\ hstep m ev m' /\ l' = <[i := m']> l.

(** ** Reading a response *)

(** A field of a JSON body. *)
Definition json_get (k : string) (fields : list (string * json_value)) : option json_value :=
  snd <$> find (fun kv => String.eqb kv.1 k) fields.

(** The payload bytes a response carries: the binary body, or the [data]
    field of a JSON body. *)
Definition payload_of (res : response) : option (list byte) :=
  match body res with
  | Some (Binary b) => Some b
  | Some (Json fields) =>
      match json_get "data" fields with
      | Some (JBase64 b) => Some b
      | _ => None
      end
  | _ => None
  end.

(** The rendered width and height a response carries: the [X-Page-Width] and
    [X-Page-Height] headers, or the [pageWidth] and [pageHeight] fields of a
    JSON body. *)
Definition dimensions_of (res : response) : option (Z * Z) :=
  match headers res !! "X-Page-Width", headers res !! "X-Page-Height" with
  | Some (HVal (JNum wd)), Some (HVal (JNum ht)) => Some (wd, ht)
  | _, _ =>
      match body res with
      | Some (Json fields) =>
          match json_get "pageWidth" fields, json_get "pageHeight" fields with
          | Some (JV (JNum wd)), Some (JV (JNum ht)) => Some (wd, ht)
          | _, _ => None
          end
      | _ => None
      end
  end.

(** The error a response carries: the [error] field of a JSON body. *)
Definition error_of (res : response) : option string :=
  match body res with
  | Some (Json fields) =>
      match json_get "error" fields with
      | Some (JV (JStr msg)) => Some msg
      | _ => None
      end
  | _ => None
  end.

(** The response object once the CORS headers are set. *)
Definition cors_response : response := (cors fresh_response).1.

(** The answer of the [catch] block to [error]. *)
Definition error_response (error : js_error) : response :=
  {| statusCode := 500;
     headers := <["Content-Type" := HVal (JStr "application/json")]> (headers cors_response);
     headersSent := true;
     body := Some (Json [("success", JV (JBool false));
                         ("error", JV (JStr (message error)))]) |}.

(** The dimensions the in-page script reported. *)
Definition measured (ev : event) : option (Z * Z) :=
  match ev with
  | EvAwait c o _ =>
      match c return outcome (reply c) -> option (Z * Z) with
      | GetDimensions _ =>
          fun o => match o with
                   | Resolved d => Some (dim_width d, dim_height d)
                   | Rejected _ => None
                   end
      | _ => fun _ => None
      end o
  | _ => None
  end.

(** The exception [url.parse] throws on the target of a request, if any. *)
Definition thrown (req : request) : option js_error :=
  match target req with
  | Unparsable e => Some e
  | Parsed _ _ => None
  end.

(** A request that takes the [/screenshot] branch of the handler. *)
Definition to_screenshot (req : request) : bool :=
  match target req with
  | Parsed pathname _ =>
      negb (String.eqb (method req) "OPTIONS")
      && negb (String.eqb pathname "/health")
      && String.eqb pathname "/screenshot"
  | Unparsable _ => false
  end.

(** The attempt as [conclude] takes it. *)
Definition attempt_of (options : Options) (o : outcome capture_result)
  : outcome (Options * capture_result) :=
  match o with
  | Resolved r => Resolved (options, r)
  | Rejected e => Rejected e
  end.

(** [res] answers [req], whose handler saw the events [log]: the response
    is sent and has a body; on the [/screenshot] branch it either is a 200
    with the payload, no call on the browser having been rejected, or it is a
    500 with an error message, which is the message of a rejected call of
    this very log whenever a call of this log was rejected. *)
Definition answers (req : request) (log : list event) (res : response) : Prop :=
  headersSent res = true /\
  is_Some (body res) /\
  (to_screenshot req = true ->
   (statusCode res = 200 /\ is_Some (payload_of res) /\ error_of res = None /\
    Forall (fun ev => rejection ev = None) log) \/
   (statusCode res = 500 /\ payload_of res = None /\ is_Some (error_of res) /\
    forall e, Some e ∈ rejection <$> log ->
      exists e', Some e' ∈ rejection <$> log /\ error_of res = Some (message e'))).

(** What every execution of the handler comes to when the target of the
    request has parsed: one handle at most, given back at the end, and a
    response that answers the request. *)
Definition safely (req : request) (tr : list event) (o : outcome response) : Prop :=
  holding None tr = Some None /\
  exists res, o = Resolved res /\ answers req tr res.

(** The rendered dimensions a finished capture reports. *)
Definition rendered_width (c : capture_result) : Z := pageWidth (metadata c).

Definition rendered_height (c : capture_result) : Z := pageHeight (metadata c).

(** ** The orchestration kernel of the specification *)

(** The batch scheduler and the change detector of the specification are
    not among the sources at hand: the README tells of a Python service,
    [screenshot_service.py], with [serp_batch] and with [monitor_snapshot]
    and its [comparison] ([changed], [size_difference_percent]).  They are
    set down here as the specification words them, over the [capture] of the
    server above. *)
Module Kernel.

Record Viewport : Set := { width : Z; height : Z; isMobile : bool }.

Inductive Format : Set := PNG | JPEG | PDF.

Record CaptureRequest : Set := {
  url : string;
  viewport : Viewport;
  format : Format;
  delayMs : Z;
  timeoutMs : Z;
  outputKey : string
}.

Inductive Status : Set := SUCCEEDED | FAILED.

Record CaptureResult : Set := {
  request : CaptureRequest;
  status : Status;
  payload : option (list byte);
  pageWidth : option Z;
  pageHeight : option Z;
  error : option js_error;
  elapsedMs : Z
}.

Inductive ValidationError : Set :=
| DuplicateOutputKey
| BadConcurrency.

(** Modelled from the spec: a CaptureRequest (section 3), as the options
    object [capture] reads. *)
Definition to_options (r : CaptureRequest) : Options :=
  {[ "targetUrl" := JStr (url r);
     "format" := JStr match format r with PNG => "png" | JPEG => "jpeg" | PDF => "pdf" end;
     "width" := JNum (width (viewport r));
     "height" := JNum (height (viewport r));
     "mobile" := JBool (isMobile (viewport r));
     "delay" := JNum (delayMs r);
     "timeout" := JNum (timeoutMs r) ]}.

Definition result_of (r : CaptureRequest) (took : Z) (o : outcome capture_result)
  : CaptureResult :=
  match o with
  | Resolved c =>
      {| request := r; status := SUCCEEDED; payload := Some (data c);
         pageWidth := Some (rendered_width c);
         pageHeight := Some (rendered_height c);
         error := None; elapsedMs := took |}
  | Rejected e =>
      {| request := r; status := FAILED; payload := None; pageWidth := None;
         pageHeight := None; error := Some e; elapsedMs := took |}
  end.

(** Modelled from the spec: the captures of an accepted batch (4.1), "one
    entry per input request"; they are made one after the other, which any
    limit of at least 1 allows. *)
Fixpoint attempts (w : world) (hist : list event) (requests : list CaptureRequest)
  : list event * gmap string CaptureResult :=
  match requests with
  | [] => (hist, ∅)
  | r :: rest =>
      let '(hist1, o) := run w hist (capture (to_options r)) in
      let took := foldr Z.add 0 (elapsed <$> drop (length hist) hist1) in
      let '(hist2, results) := attempts w hist1 rest in
      (hist2, <[outputKey r := result_of r took o]> results)
  end.

(** Modelled from the spec: [runBatch], the Batch Scheduler of 4.1, which is
    not among the sources.  It "rejects the batch outright (before starting
    any capture) if [outputKey] is duplicated, or if [N < 1]", and otherwise
    returns "a mapping from [outputKey] to CaptureResult".  The first
    component is the log of the Browser Capability calls made. *)
Definition runBatch (w : world) (requests : list CaptureRequest) (concurrency : Z)
  : list event * (ValidationError + gmap string CaptureResult) :=
  if bool_decide (NoDup (outputKey <$> requests)) then
    if concurrency <? 1 then ([], inl BadConcurrency)
    else let '(log, results) := attempts w [] requests in (log, inr results)
  else ([], inl DuplicateOutputKey).

Record Artifact : Set := {
  key : string;
  timestamp : Z;
  stored : list byte
}.

Inductive OrderingError : Set := OutOfOrder.

Record ChangeRecord : Set := {
  previous : Artifact;
  current : Artifact;
  changed : bool;
  differencePercent : Qc
}.

(** Modelled from the spec: "[size] is the byte length of the stored
    payload". *)
Definition size (a : Artifact) : Z := Z.of_nat (length (stored a)).

(** Modelled from the spec: "threshold configurable, default 5.0". *)
Definition default_threshold : Qc := Qc_of_Z 5.

(** Modelled from the spec: the Change Detector of 4.3, which is not among
    the sources.  "[differencePercent = 100 * |size(current) -
    size(previous)| / max(size(previous), 1)]", "[changed =
    differencePercent > threshold]", and a [previous] later than [current]
    "fails with [OrderingError]".  The spec's float is an exact rational
    here. *)
Definition compare (threshold : Qc) (previous current : Artifact)
  : OrderingError + ChangeRecord :=
  if timestamp current <? timestamp previous then inl OutOfOrder
  else
    let percent :=
      (Qc_of_Z 100 * Qc_of_Z (Z.abs (size current - size previous))
       / Qc_of_Z (Z.max (size previous) 1))%Qc in
    inr {| previous := previous; current := current;
           changed := bool_decide (threshold < percent)%Qc;
           differencePercent := percent |}.

(** Modelled from the spec: [compareArtifacts(previous, current)] of section
    6, the comparison at the default threshold. *)
Definition compareArtifacts : Artifact -> Artifact -> OrderingError + ChangeRecord :=
  compare default_threshold.

End Kernel.

(** ** Concrete worlds, for running the model *)

Module Sample.
Definition png : list byte := [x89; x50; x4e; x47].
Definition dims : dimensions :=
  {| dim_width := 1280; dim_height := 2400; dim_title := "Example Domain" |}.

(** Every call resolves at once; [newPage] hands out the handle [n]. *)
Definition resolve_with (n : page) (c : call) : reply c :=
  match c return reply c with
  | NewPage => n
  | GetDimensions _ => dims
  | Pdf _ | Screenshot _ _ _ _ => png
  | SetViewport _ _ _ _ | Goto _ _ _ _ | HideSticky _ | ClosePage _ => tt
  end.

Definition browser (n : page) : world :=
  {| answer := fun c _ => Resolved (resolve_with n c);
     takes := fun _ _ => 0;
     clock := fun _ => "2025-01-22T12:00:00.000Z" |}.

Definition resolve : forall c : call, reply c := resolve_with 1%nat.

Definition happy : world := browser 1%nat.

(** Navigation is refused, as puppeteer does for a URL it cannot load. *)
Definition unreachable : world :=
  {| answer := fun c _ =>
       match c return outcome (reply c) with
       | Goto _ _ _ _ => Rejected (Error "net::ERR_NAME_NOT_RESOLVED")
       | c => Resolved (resolve c)
       end;
     takes := fun _ _ => 0;
     clock := fun _ => "2025-01-22T12:00:00.000Z" |}.

(** Navigation is refused unless the target has the syntax of an absolute
    URL, as puppeteer refuses it. *)
Definition strict : world :=
  {| answer := fun c _ =>
       match c return outcome (reply c) with
       | Goto p target u t =>
           if absolute_url target then Resolved (resolve (Goto p target u t))
           else Rejected (Error "Protocol error (Page.navigate): Cannot navigate to invalid URL")
       | c => Resolved (resolve c)
       end;
     takes := fun _ _ => 0;
     clock := fun _ => "2025-01-22T12:00:00.000Z" |}.

Definition get (q : Options) : request :=
  {| method := "GET"; target := Parsed "/screenshot" q; posted := BodyInvalid |}.

Definition post (o : Options) : request :=
  {| method := "POST"; target := Parsed "/screenshot" ∅; posted := BodyObject o |}.

(** A request in absolute form whose authority part does not decode, as in
    [GET http://%zz@host/screenshot?url=https://example.com]. *)
Definition undecodable : request :=
  {| method := "GET"; target := Unparsable URI_malformed; posted := BodyInvalid |}.
End Sample.


(** ** More ways to read a log, a request and a response *)

(** The place of a step in the body of [capture], in source order. *)
Definition stage (ev : event) : nat :=
  match ev with
  | EvAwait NewPage _ _ => 0
  | EvAwait (SetViewport _ _ _ _) _ _ => 1
  | EvAwait (Goto _ _ _ _) _ _ => 2
  | EvSleep _ => 3
  | EvAwait (HideSticky _) _ _ => 4
  | EvAwait (GetDimensions _) _ _ => 5
  | EvAwait (Pdf _) _ _ | EvAwait (Screenshot _ _ _ _) _ _ => 6
  | EvNow _ => 7
  | EvAwait (ClosePage _) _ _ => 8
  end%nat.

(** A list of numbers goes up strictly. *)
Fixpoint ascending (l : list nat) : bool :=
  match l with
  | [] => true
  | x :: l' => forallb (fun y => (x <? y)%nat) l' && ascending l'
  end.

(** Every event but the last few was resolved: an event that was rejected is
    followed by [page.close()] at most. *)
Fixpoint fails_fast (tr : list event) : bool :=
  match tr with
  | [] => true
  | ev :: tr' =>
      (bool_decide (rejection ev = None) || forallb (fun ev' => (stage ev' =? 8)%nat) tr')
      && fails_fast tr'
  end.

(** The [url] a request gives: the [url] of a JSON object posted, or of the
    query string when the method is not POST. *)
Definition given_url (req : request) : jsval :=
  if String.eqb (method req) "POST" then
    match posted req with
    | BodyObject o => field o "url"
    | _ => JUndef
    end
  else
    match target req with
    | Parsed _ query => field query "url"
    | Unparsable _ => JUndef
    end.


(** [options.returnJson === 'true' || options.returnJson === true]. *)
Definition wants_json (options : Options) : bool :=
  strict_eq (field options "returnJson") (JStr "true")
  || strict_eq (field options "returnJson") (JBool true).



(** The content-type table has an entry, own or inherited, for the format of
    the request. *)
Definition known_type (options : Options) : bool :=
  match contentType (js_or (field options "format") (JStr "png")) with
  | HVal JUndef => false
  | _ => true
  end.

(** The three headers set before the handler looks at the request. *)
Definition cors_headers : list (string * header_value) :=
  [("Access-Control-Allow-Origin", HVal (JStr "*"));
   ("Access-Control-Allow-Methods", HVal (JStr "GET, POST, OPTIONS"));
   ("Access-Control-Allow-Headers", HVal (JStr "Content-Type"))].

(** The names of the fields of a JSON body, in order. *)
Definition json_keys (res : response) : option (list string) :=
  match body res with
  | Some (Json fields) => Some (fst <$> fields)
  | _ => None
  end.

(** A character [encodeURIComponent] lets through or produces: unreserved,
    or a percent sign, or an upper-case hexadecimal digit. *)
Definition uri_char (a : ascii) : bool :=
  unreserved a || bool_decide (a = "%"%char).

Fixpoint string_forall (f : ascii -> bool) (s : string) : bool :=
  match s with
  | EmptyString => true
  | String a s' => f a && string_forall f s'
  end.

(** A character that may stand in a header value without ending it: visible
    ASCII, no control character, no space. *)
Definition visible (a : ascii) : bool :=
  let n := nat_of_ascii a in ((33 <=? n) && (n <=? 126))%nat.

(** The value of a hexadecimal digit as [encodeURIComponent] writes it. *)
Definition unhex (a : ascii) : option nat :=
  let n := nat_of_ascii a in
  if ((48 <=? n) && (n <=? 57))%nat then Some (n - 48)%nat
  else if ((65 <=? n) && (n <=? 70))%nat then Some (n - 55)%nat
  else None.

(** Percent-decoding, byte by byte, as [decodeURIComponent] undoes
    [encodeURIComponent]; [None] for a malformed escape. *)
Fixpoint percent_decode (s : string) : option string :=
  match s with
  | EmptyString => Some EmptyString
  | String "%" (String h (String l s')) =>
      match unhex h, unhex l, percent_decode s' with
      | Some x, Some y, Some r => Some (String (ascii_of_nat (16 * x + y)) r)
      | _, _, _ => None
      end
  | String "%" _ => None
  | String a s' => String a <$> percent_decode s'
  end.

(** The response to a finished capture asked for as JSON, written out. *)
Definition json_reply (result : capture_result) : response :=
  let m := metadata result in
  {| statusCode := 200;
     headers := <["Content-Type" := HVal (JStr "application/json")]> (headers cors_response);
     headersSent := true;
     body := Some (stringify
                     [("url", JV (url m)); ("format", JV (format m));
                      ("pageWidth", JV (JNum (pageWidth m)));
                      ("pageHeight", JV (JNum (pageHeight m)));
                      ("title", JV (JStr (title m)));
                      ("viewport", JV (JStr (viewport m)));
                      ("mobile", JV (mobile m));
                      ("timestamp", JV (JStr (timestamp m)));
                      ("size", JV (JNum (size m)));
                      ("data", JBase64 (data result))]) |}.

(** The response to a finished capture sent as binary with the content type
    [ct], written out. *)
Definition binary_reply (ct : header_value) (result : capture_result) : response :=
  let m := metadata result in
  {| statusCode := 200;
     headers :=
       <["X-Page-Height" := HVal (JNum (pageHeight m))]>
         (<["X-Page-Width" := HVal (JNum (pageWidth m))]>
            (<["X-Page-Title" := HVal (JStr (encodeURIComponent (title m)))]>
               (<["Content-Length" := HVal (JNum (Z.of_nat (length (data result))))]>
                  (<["Content-Type" := ct]> (headers cors_response)))));
     headersSent := true;
     body := Some (Binary (data result)) |}.

(** The response to a finished capture. *)
Definition delivery (options : Options) (result : capture_result) : response :=
  if wants_json options then json_reply result
  else if known_type options
       then binary_reply (contentType (js_or (field options "format") (JStr "png"))) result
       else error_response (ERR_HTTP_INVALID_HEADER_VALUE "Content-Type").

(** The response to an attempt, however it ended. *)
Definition response_to (options : Options) (o : outcome capture_result) : response :=
  match o with
  | Resolved result => delivery options result
  | Rejected e => error_response e
  end.


(** The responses of the branches of the handler that do not capture. *)
Definition preflight_response : response :=
  (then_ (writeHead 204 []) (end_ Empty) cors_response).1.

Definition health_response (timestamp : string) : response :=
  (then_ (writeHead 200 json_header)
     (end_ (stringify [("status", JV (JStr "ok"));
                       ("timestamp", JV (JStr timestamp))])) cors_response).1.

Definition docs_response : response :=
  (then_ (writeHead 200 [("Content-Type", HVal (JStr "text/html"))]) (end_ Html)
     cors_response).1.

Definition not_found_response : response :=
  (then_ (writeHead 404 json_header)
     (end_ (stringify [("error", JV (JStr "Not found"))])) cors_response).1.

(** The title the in-page script reported. *)
Definition page_title (ev : event) : option string :=
  match ev with
  | EvAwait c o _ =>
      match c return outcome (reply c) -> option string with
      | GetDimensions _ =>
          fun o => match o with
                   | Resolved d => Some (dim_title d)
                   | Rejected _ => None
                   end
      | _ => fun _ => None
      end o
  | _ => None
  end.

(** What [encodeURIComponent] writes for one character, in front of [rest]. *)
Definition encode_char (a : ascii) (rest : string) : string :=
  if unreserved a then String a rest
  else
    let n := nat_of_ascii a in
    String "%" (String (hex_digit (n / 16)) (String (hex_digit (n mod 16)) rest)).

(** A decimal digit. *)
Definition decimal_digit (a : ascii) : bool :=
  let n := nat_of_ascii a in ((48 <=? n) && (n <=? 57))%nat.

(** The options that [capture] reads as numbers. *)
Definition numeric_options : list string := ["width"; "height"; "delay"; "timeout"].

(** The response the handler sends for [req] when the browser behaves as
    [w]; the second case is that of a target that does not parse, for which
    nothing is sent. *)
Definition sent (w : world) (req : request) : response :=
  match (run w [] (handler req fresh_response)).2 with
  | Resolved res => res
  | Rejected _ => fresh_response
  end.

(** A character of a decimal numeral as [pretty] writes it: a digit or the
    minus sign. *)
Definition numeral_char (a : ascii) : bool :=
  decimal_digit a || bool_decide (a = "-"%char).
(** * Properties *)

Example parseInt_px : parseInt (JStr " 1280px") = Some 1280.
Proof. reflexivity. Qed.
Example parseInt_hex : parseInt (JStr "-0x1F") = Some (-31).
Proof. reflexivity. Qed.
Example parseInt_nan : parseInt (JStr "wide") = None.
Proof. reflexivity. Qed.
Example parseInt_bool : parseInt (JBool true) = None.
Proof. reflexivity. Qed.
Example gt_zero_str : gt_zero (JStr " 250 ") = true.
Proof. reflexivity. Qed.
Example gt_zero_px : gt_zero (JStr "250ms") = false.
Proof. reflexivity. Qed.
Example ToString_num : ToString (JNum (-42)) = "-42".
Proof. reflexivity. Qed.
Example ToString_array :
  ToString (JArr [JStr "pdf"; JNull; JArr [JNum 1; JNum 2]; JArr []]) = "pdf,,1,2,".
Proof. reflexivity. Qed.
Example parseInt_array : parseInt (JArr [JStr "12"; JStr "5"]) = Some 12.
Proof. reflexivity. Qed.
Example parseInt_rounds : parseInt (JStr "9007199254740993") = Some 9007199254740992.
Proof. reflexivity. Qed.
Example parseInt_no_break_space :
  parseInt (JStr (String (ascii_of_nat 194) (String (ascii_of_nat 160) "42"))) = Some 42.
Proof. reflexivity. Qed.
Example gt_zero_exponent : gt_zero (JStr "1e3") = true /\ parseInt (JStr "1e3") = Some 1.
Proof. split; reflexivity. Qed.
Example gt_zero_fraction : gt_zero (JStr "0.5") = true /\ parseInt (JStr "0.5") = Some 0.
Proof. split; reflexivity. Qed.
Example gt_zero_infinity : gt_zero (JStr "Infinity") = true /\ gt_zero (JStr "-Infinity") = false.
Proof. split; reflexivity. Qed.
Example gt_zero_binary : gt_zero (JStr "0b101") = true /\ parseInt (JStr "0b101") = Some 0.
Proof. split; reflexivity. Qed.
Example gt_zero_underflow : gt_zero (JStr "2.5e-324") = true /\ gt_zero (JStr "2.4e-324") = false.
Proof. split; vm_compute; reflexivity. Qed.
Example gt_zero_array : gt_zero (JArr [JNum 5]) = true /\ gt_zero (JArr []) = false.
Proof. split; reflexivity. Qed.


Section Always.
Context {R : Type}.
Implicit Types (m : prog R) (Q : list event -> outcome R -> Prop).

Lemma always_mono m Q Q' :
  (forall tr o, Q tr o -> Q' tr o) -> always m Q -> always m Q'.
Proof.
  revert Q Q'. induction m as [r|e|c k IH|ms k IH|k IH]; simpl; intros Q Q' HQ; auto.
  - intros H o d. apply (IH o (fun tr => Q (EvAwait c o d :: tr))); [|apply H].
    intros tr o'. apply HQ.
  - apply IH. intros tr o'. apply HQ.
  - intros H t. apply (IH t (fun tr => Q (EvNow t :: tr))); [|apply H].
    intros tr o'. apply HQ.
Qed.

Lemma always_and m Q Q' :
  always m Q -> always m Q' -> always m (fun tr o => Q tr o /\ Q' tr o).
Proof.
  revert Q Q'. induction m as [r|e|c k IH|ms k IH|k IH]; simpl; intros Q Q' H H'.
  - done.
  - done.
  - intros o d. apply (IH o _ _ (H o d) (H' o d)).
  - apply (IH _ _ H H').
  - intros t. apply (IH t _ _ (H t) (H' t)).
Qed.

(** What [always] promises holds of the run against any world. *)
Lemma always_run m Q w hist :
  always m Q ->
  exists tr, (run w hist m).1 = hist ++ tr /\ Q tr (run w hist m).2.
Proof.
  revert Q hist. induction m as [r|e|c k IH|ms k IH|k IH]; simpl; intros Q hist H.
  - exists []. by rewrite app_nil_r.
  - exists []. by rewrite app_nil_r.
  - destruct (IH _ _ (hist ++ [EvAwait c (answer w c hist) (takes w c hist)])
                (H (answer w c hist) (takes w c hist))) as (tr & Htr & HQ).
    eexists. split; [|exact HQ]. by rewrite Htr, <- app_assoc.
  - destruct (IH _ (hist ++ [EvSleep ms]) H) as (tr & Htr & HQ).
    eexists. split; [|exact HQ]. by rewrite Htr, <- app_assoc.
  - destruct (IH _ _ (hist ++ [EvNow (clock w hist)]) (H (clock w hist)))
      as (tr & Htr & HQ).
    eexists. split; [|exact HQ]. by rewrite Htr, <- app_assoc.
Qed.

(** A program is a finite tree: some execution always exists. *)
Lemma always_inhabited m Q : always m Q -> exists tr o, Q tr o.
Proof.
  intros H. destruct (always_run m Q
    {| answer := fun _ _ => Rejected (Error ""); takes := fun _ _ => 0;
       clock := fun _ => "" |} [] H) as (tr & _ & HQ). eauto.
Qed.

Lemma always_hstep m Q ev m' :
  always m Q -> hstep m ev m' -> always m' (fun tr => Q (ev :: tr)).
Proof.
  destruct m as [r|e|c k|ms k|k]; simpl; try done.
  - intros H (o & d & -> & ->). apply H.
  - intros H [-> ->]. apply H.
  - intros H (t & -> & ->). apply H.
Qed.

Lemma always_follows m Q log m' :
  always m Q -> follows m log m' -> always m' (fun tr => Q (log ++ tr)).
Proof.
  intros H. induction 1 as [|log m' ev m'' _ IH Hstep]; [done|].
  eapply always_mono; [|apply (always_hstep _ _ _ _ IH Hstep)].
  simpl. intros tr o. by rewrite <- app_assoc.
Qed.
End Always.

Section AlwaysCompose.
Context {R S : Type}.

Lemma always_bind (m : prog R) (f : R -> prog S) Q :
  always m (fun tr o =>
    match o with
    | Resolved r => always (f r) (fun tr' => Q (tr ++ tr'))
    | Rejected e => Q tr (Rejected e)
    end) ->
  always (bind m f) Q.
Proof.
  revert Q. induction m as [r|e|c k IH|ms k IH|k IH]; simpl; intros Q H.
  - exact H.
  - exact H.
  - intros o d. apply IH, H.
  - apply IH, H.
  - intros t. apply IH, H.
Qed.
End AlwaysCompose.

Section AlwaysHandlers.
Context {R : Type}.

Lemma always_try_finally (m : prog R) (fin : prog unit) Q :
  always m (fun tr o =>
    always fin (fun tr' o' =>
      Q (tr ++ tr') match o' with Resolved _ => o | Rejected e' => Rejected e' end)) ->
  always (try_finally m fin) Q.
Proof.
  revert Q. induction m as [r|e|c k IH|ms k IH|k IH]; simpl; intros Q H.
  - apply always_bind. eapply always_mono; [|exact H].
    intros tr [[]|e] HQ; simpl in *; by rewrite ?app_nil_r.
  - apply always_bind. eapply always_mono; [|exact H].
    intros tr [[]|e'] HQ; simpl in *; by rewrite ?app_nil_r.
  - intros o d. apply IH, H.
  - apply IH, H.
  - intros t. apply IH, H.
Qed.

Lemma always_try_catch (m : prog R) (h : js_error -> prog R) Q :
  always m (fun tr o =>
    match o with
    | Resolved r => Q tr (Resolved r)
    | Rejected e => always (h e) (fun tr' => Q (tr ++ tr'))
    end) ->
  always (try_catch m h) Q.
Proof.
  revert Q. induction m as [r|e|c k IH|ms k IH|k IH]; simpl; intros Q H.
  - exact H.
  - exact H.
  - intros o d. apply IH, H.
  - apply IH, H.
  - intros t. apply IH, H.
Qed.

End AlwaysHandlers.

(** [settle] never throws: it hands over how [m] ended. *)
Lemma always_settle {R : Type} (m : prog R)
    (Q : list event -> outcome (outcome R) -> Prop) :
  always m (fun tr o => Q tr (Resolved o)) -> always (settle m) Q.
Proof.
  intros H. apply always_try_catch, always_bind.
  eapply always_mono; [|exact H]. intros tr [r|e] HQ; simpl; by rewrite ?app_nil_r.
Qed.

Lemma always_await (c : call) (Q : list event -> outcome (reply c) -> Prop) :
  (forall o d, Q [EvAwait c o d] o) -> always (await c) Q.
Proof. intros H o d. destruct o; apply H. Qed.

(** ** Walking through [capture] *)

(** Open the next node of a program built from the combinators above and
    split on how the pending call settles or on the test that guards the next
    statement. *)
Ltac walk_step :=
  first
    [ progress (unfold mbind, mret, prog_bind, prog_ret)
    | progress cbn [always bind try_finally try_catch await sleep now]
    | match goal with
      | |- forall _ : outcome _, _ => intros [?|?]
      | |- forall _ : Z, _ => intro
      | |- forall _ : string, _ => intro
      | |- always ?m _ =>
          match m with context [if ?b then _ else _] => destruct b eqn:? end
      end ].

Ltac walk := repeat walk_step.

Lemma always_run0 {R : Type} (m : prog R) Q w :
  always m Q -> Q (run w [] m).1 (run w [] m).2.
Proof.
  intros H. destruct (always_run m Q w [] H) as (tr & Htr & HQ). by rewrite Htr.
Qed.

(** Close a goal about a concrete log: compute the readers of the log, then
    settle what is left about handles. *)
Ltac log_facts :=
  cbn [open_pages foldl track checkout checkin holding hold on_page rejection
       shot is_pdf captured navigation fmap list_fmap last mbind option_bind
       option_fmap option_map];
  repeat case_decide; try done; try congruence; try multiset_solver.

(** ** One attempt *)

Lemma capture_brackets options :
  always (capture options) (fun tr _ =>
    open_pages tr = ∅ /\ holding None tr = Some None /\
    forall p, Some p ∈ checkout <$> tr -> last tr ≫= checkin = Some p).
Proof.
  unfold capture. walk.
  all: split_and!; [log_facts..|].
  all: intros p Hp; cbn [fmap list_fmap checkout] in Hp.
  all: repeat (apply elem_of_cons in Hp as [Hp|Hp]; simplify_eq); try by inversion Hp.
  all: done.
Qed.

(** C3.  Every attempt of [capture] that got a page handle from [newPage]
    calls [close] on that handle as its last step, whether it returns a
    result or throws, and whatever the browser answered in between: the
    handle is opened once, used only while held, closed once, and no handle
    stays checked out when the attempt is over. *)
Theorem capture_closes_page (w : world) (options : Options) :
  let tr := (run w [] (capture options)).1 in
  open_pages tr = ∅ /\
  holding None tr = Some None /\
  forall p, Some p ∈ checkout <$> tr -> last tr ≫= checkin = Some p.
Proof. apply (always_run0 _ _ w (capture_brackets options)). Qed.

Lemma capture_size options :
  always (capture options) (fun tr o =>
    forall r, o = Resolved r ->
      success r = true /\
      size (metadata r) = Z.of_nat (length (data r)) /\
      Some (data r) ∈ captured <$> tr).
Proof.
  unfold capture. walk.
  all: intros r Hr; simplify_eq; split_and!; try done.
  all: cbn [fmap list_fmap captured]; set_solver.
Qed.

(** C10.  When [capture] returns, the [size] in the metadata it returns is
    the byte length of the [data] it returns, and that [data] is what the
    capture call on the page resolved with. *)
Theorem capture_size_is_data_length (w : world) (options : Options) :
  forall r, (run w [] (capture options)).2 = Resolved r ->
    size (metadata r) = Z.of_nat (length (data r)) /\
    Some (data r) ∈ captured <$> (run w [] (capture options)).1.
Proof.
  intros r Hr.
  destruct (always_run0 _ _ w (capture_size options) r Hr) as (_ & ? & ?). done.
Qed.

Lemma capture_size_is_data_length_witness :
  exists r, (run Sample.happy [] (capture {["targetUrl" := JStr "https://example.com"]})).2
            = Resolved r /\
    size (metadata r) = 4 /\ length (data r) = 4%nat.
Proof.
  eexists. split; [vm_compute; reflexivity|].
  split; [|reflexivity].
  apply (capture_size_is_data_length Sample.happy
           {["targetUrl" := JStr "https://example.com"]}).
  vm_compute. reflexivity.
Defined.


Lemma strict_eq_false a b : a <> b -> strict_eq a b = false.
Proof.
  intros H. unfold strict_eq.
  destruct a, b; try reflexivity; by apply bool_decide_eq_false.
Qed.

(** Find an element in a list that is written out. *)
Ltac in_log :=
  cbn [fmap list_fmap rejection captured checkout checkin shot navigation];
  repeat first [apply list_elem_of_here | apply list_elem_of_further].





Lemma capture_url_guard options :
  always (capture options) (fun tr o =>
    if truthy (field options "targetUrl") then
      (exists o' d tr', tr = EvAwait NewPage o' d :: tr') /\
      Forall (fun ev => forall x, navigation ev = Some x ->
                x = (field options "targetUrl", timeoutMs options)) tr
    else tr = [] /\ o = Rejected (Error "URL is required")).
Proof.
  unfold capture, timeoutMs. destruct (truthy (field options "targetUrl")); cbn [negb].
  - walk. all: split; [by eauto|]. all: repeat constructor; simpl; congruence.
  - done.
Qed.

(** C4, as the code has it.  [capture] turns a request down before any call
    on the browser exactly when its [url] is missing or falsy (absent,
    [null], the empty string, 0, [false]), with the error [URL is required].
    The syntax of any other [url] is not looked at: the first thing
    [capture] does is [newPage], and the [url] is handed to [page.goto] as it
    came. *)
Theorem capture_rejects_missing_url_only (w : world) (options : Options) :
  let tr := (run w [] (capture options)).1 in
  let o := (run w [] (capture options)).2 in
  if truthy (field options "targetUrl") then
    (exists o' d tr', tr = EvAwait NewPage o' d :: tr') /\
    Forall (fun ev => forall x, navigation ev = Some x ->
              x = (field options "targetUrl", timeoutMs options)) tr
  else tr = [] /\ o = Rejected (Error "URL is required").
Proof. apply (always_run0 _ _ w (capture_url_guard options)). Qed.

(** C4 does not hold as stated: a [url] that is not an absolute URL gets a
    page created for it and a navigation attempted, which the browser
    refuses. *)
Lemma capture_invalid_url_reaches_browser :
  let options : Options := {["targetUrl" := JStr "not a url"]} in
  absolute_url (field options "targetUrl") = false /\
  run Sample.strict [] (capture options) =
    ([EvAwait NewPage (Resolved 1%nat) 0;
      EvAwait (SetViewport 1%nat (Some 1280) (Some 800) false) (Resolved tt) 0;
      EvAwait (Goto 1%nat (JStr "not a url") "networkidle2" (Some 30000))
        (Rejected (Error "Protocol error (Page.navigate): Cannot navigate to invalid URL")) 0;
      EvAwait (ClosePage 1%nat) (Resolved tt) 0],
     Rejected (Error "Protocol error (Page.navigate): Cannot navigate to invalid URL")).
Proof. split; vm_compute; reflexivity. Qed.

Lemma capture_navigation options :
  always (capture options) (fun tr o =>
    Forall (fun ev =>
      (forall x, navigation ev = Some x ->
         x = (field options "targetUrl", timeoutMs options)) /\
      (forall ms, ev = EvSleep ms ->
         ms = parseInt (or_default (field options "delay") (JNum 0)))) tr /\
    (forall ev e, ev ∈ tr -> is_Some (navigation ev) -> rejection ev = Some e ->
       exists e', o = Rejected e' /\ (last tr ≫= rejection = None -> e' = e))).
Proof.
  unfold capture, timeoutMs. walk.
  all: split; [repeat constructor; simpl; congruence|].
  all: intros ev e' Hin [x Hx] Hrej.
  all: repeat (apply elem_of_cons in Hin as [->|Hin]); try (by inversion Hin).
  all: cbn [navigation rejection] in Hx, Hrej; try discriminate.
  all: injection Hrej as <-.
  all: eexists; split; [reflexivity|]; intros Hlast.
  all: cbn [last rejection mbind option_bind] in Hlast; congruence.
Qed.

(** C5, as the code has it.  The [timeout] of a request limits the navigation
    only: [page.goto] is called with [timeout: parseInt(timeout)], 30000 by
    default, and when [page.goto] is rejected, as puppeteer rejects it with
    its TimeoutError once that time has passed, [capture] throws, with that
    very error unless closing the page is rejected in turn.  The wait is
    [setTimeout] with [parseInt(delay)] whatever the [timeout], and the
    capture calls are given no time limit. *)
Theorem capture_timeout_limits_navigation (w : world) (options : Options) :
  let tr := (run w [] (capture options)).1 in
  let o := (run w [] (capture options)).2 in
  Forall (fun ev =>
    (forall x, navigation ev = Some x ->
       x = (field options "targetUrl", timeoutMs options)) /\
    (forall ms, ev = EvSleep ms ->
       ms = parseInt (or_default (field options "delay") (JNum 0)))) tr /\
  (forall ev e, ev ∈ tr -> is_Some (navigation ev) -> rejection ev = Some e ->
     exists e', o = Rejected e' /\ (last tr ≫= rejection = None -> e' = e)).
Proof. apply (always_run0 _ _ w (capture_navigation options)). Qed.

(** C5 does not hold as stated: with [timeout] 1000 and [delay] 5000 the wait
    takes 5000 ms, more than the time limit, and the attempt succeeds. *)
Lemma capture_delay_outlasts_timeout :
  let options : Options :=
    {["targetUrl" := JStr "https://example.com"; "delay" := JNum 5000;
      "timeout" := JNum 1000]} in
  let tr := (run Sample.happy [] (capture options)).1 in
  let o := (run Sample.happy [] (capture options)).2 in
  timeoutMs options = Some 1000 /\
  tr !! 3%nat = Some (EvSleep (Some 5000)) /\
  timed_step (EvSleep (Some 5000)) = true /\
  elapsed (EvSleep (Some 5000)) = 5000 /\
  match o with Resolved r => success r = true | Rejected _ => False end.
Proof. repeat split; vm_compute; reflexivity. Qed.

Lemma capture_returns_what_it_saw options :
  always (capture options) (fun tr o =>
    forall r, o = Resolved r ->
      Some (data r) ∈ captured <$> tr /\
      Some (pageWidth (metadata r), pageHeight (metadata r)) ∈ measured <$> tr).
Proof.
  unfold capture. walk.
  all: intros r Hr; simplify_eq; split.
  all: cbn [fmap list_fmap captured measured metadata data pageWidth pageHeight];
    repeat first [apply list_elem_of_here | apply list_elem_of_further].
Qed.

(** ** One request *)

Section RunCompose.
Context {R S : Type}.

Lemma run_bind w hist (m : prog R) (f : R -> prog S) :
  run w hist (bind m f) =
    match run w hist m with
    | (hist', Resolved r) => run w hist' (f r)
    | (hist', Rejected e) => (hist', Rejected e)
    end.
Proof.
  revert hist. induction m as [r|e|c k IH|ms k IH|k IH]; simpl; intros hist; auto.
Qed.
End RunCompose.

Lemma run_settle {R : Type} w hist (m : prog R) :
  run w hist (settle m) = ((run w hist m).1, Resolved (run w hist m).2).
Proof.
  unfold settle. revert hist.
  induction m as [r|e|c k IH|ms k IH|k IH]; simpl; intros hist; auto.
Qed.

Lemma cors_ok : cors fresh_response = (cors_response, None).
Proof. reflexivity. Qed.

(** The [catch] block always gets its answer out. *)
Lemma conclude_rejected e :
  conclude (Rejected e) cors_response = (error_response e, None).
Proof. reflexivity. Qed.

Lemma error_response_reads e :
  statusCode (error_response e) = 500 /\
  headersSent (error_response e) = true /\
  payload_of (error_response e) = None /\
  dimensions_of (error_response e) = None /\
  error_of (error_response e) = Some (message e).
Proof. split_and!; reflexivity. Qed.

Lemma json_get_filter_some k fields v :
  json_get k fields = Some v -> defined v = true ->
  json_get k (List.filter (fun kv => defined kv.2) fields) = Some v.
Proof.
  unfold json_get. induction fields as [|[k' v'] fields IH]; [done|].
  cbn [find List.filter fst snd]. destruct (String.eqb k' k) eqn:Hk.
  - intros [= ->] ->. cbn [find fst]. by rewrite Hk.
  - intros Hv Hd. destruct (defined v'); [cbn [find fst]; rewrite Hk|]; by apply IH.
Qed.

Lemma json_get_filter_none k fields :
  json_get k fields = None ->
  json_get k (List.filter (fun kv => defined kv.2) fields) = None.
Proof.
  unfold json_get. induction fields as [|[k' v'] fields IH]; [done|].
  cbn [find List.filter fst snd]. destruct (String.eqb k' k) eqn:Hk; [done|].
  intros Hv. destruct (defined v'); [cbn [find fst]; rewrite Hk|]; by apply IH.
Qed.

Lemma conclude_delivery options result :
  conclude (Resolved (options, result)) cors_response = (delivery options result, None).
Proof.
  unfold conclude, send_result, delivery, wants_json, known_type.
  destruct (strict_eq _ _ || strict_eq _ _); [reflexivity|].
  destruct (contentType _) as [[]|]; reflexivity.
Qed.

(** A finished capture is sent with status 200, its bytes and its
    dimensions; or sending throws on the [Content-Type] header, before node
    has sent anything, and the [catch] block answers. *)
Lemma conclude_resolved options r :
  exists res, conclude (Resolved (options, r)) cors_response = (res, None) /\
    ((statusCode res = 200 /\ headersSent res = true /\
      payload_of res = Some (data r) /\
      dimensions_of res = Some (pageWidth (metadata r), pageHeight (metadata r)) /\
      error_of res = None) \/
     res = error_response (ERR_HTTP_INVALID_HEADER_VALUE "Content-Type")).
Proof.
  exists (delivery options r). split; [apply conclude_delivery|].
  unfold delivery. destruct (wants_json options).
  - left. split_and!; [reflexivity|reflexivity|..].
    + unfold payload_of, json_reply, stringify. cbn [body].
      by rewrite (json_get_filter_some "data" _ (JBase64 (data r))).
    + unfold dimensions_of.
      assert (headers (json_reply r) !! "X-Page-Width" = None) as ->
        by (vm_compute; reflexivity).
      unfold json_reply, stringify. cbn [body].
      by rewrite (json_get_filter_some "pageWidth" _ (JV (JNum (pageWidth (metadata r))))),
        (json_get_filter_some "pageHeight" _ (JV (JNum (pageHeight (metadata r))))).
    + unfold error_of, json_reply, stringify. cbn [body].
      by rewrite json_get_filter_none.
  - destruct (known_type options); [left|by right].
    split_and!; [reflexivity..| |reflexivity].
    unfold dimensions_of.
    assert (forall ct, headers (binary_reply ct r) !! "X-Page-Width"
                       = Some (HVal (JNum (pageWidth (metadata r))))) as ->
      by (intros ct; vm_compute; reflexivity).
    assert (forall ct, headers (binary_reply ct r) !! "X-Page-Height"
                       = Some (HVal (JNum (pageHeight (metadata r))))) as ->
      by (intros ct; vm_compute; reflexivity).
    reflexivity.
Qed.

Lemma conclude_ok attempt : (conclude attempt cors_response).2 = None.
Proof.
  destruct attempt as [[options r]|e]; [|done].
  by destruct (conclude_resolved options r) as (res & -> & _).
Qed.

Lemma read_options_pure req :
  (exists options, read_options req = Ret options) \/
  (exists e, read_options req = Throw e).
Proof.
  unfold read_options. destruct (String.eqb _ _).
  - destruct (posted req) as [o|[]| |e]; eauto.
  - destruct (target req); eauto.
Qed.

Lemma handler_screenshot req :
  to_screenshot req = true -> handler req fresh_response = screenshot req cors_response.
Proof.
  unfold to_screenshot, handler, unguarded. rewrite cors_ok.
  destruct (target req) as [pathname query|e]; [|discriminate].
  intros [[Hm Hh%negb_true_iff]%andb_prop Hs]%andb_prop.
  apply negb_true_iff in Hm. cbn [mbind prog_bind bind]. by rewrite Hm, Hh, Hs.
Qed.

Lemma unguarded_conclude attempt :
  unguarded (conclude attempt) cors_response
  = Ret (conclude attempt cors_response).1.
Proof.
  unfold unguarded. pose proof (conclude_ok attempt) as H.
  destruct (conclude attempt cors_response) as [res [e|]]; simplify_eq/=; done.
Qed.

Lemma run_screenshot_thrown w req e :
  to_screenshot req = true ->
  read_options req = Throw e ->
  run w [] (handler req fresh_response) = ([], Resolved (error_response e)).
Proof.
  intros Hreq Hopt. rewrite (handler_screenshot req Hreq).
  unfold screenshot, mbind, prog_bind. rewrite run_bind, run_settle, Hopt.
  cbn [bind run fst snd]. by rewrite unguarded_conclude.
Qed.

Lemma run_screenshot_captured w req options :
  to_screenshot req = true ->
  read_options req = Ret options ->
  run w [] (handler req fresh_response) =
    ((run w [] (capture options)).1,
     Resolved (conclude (attempt_of options (run w [] (capture options)).2)
                 cors_response).1).
Proof.
  intros Hreq Hopt. rewrite (handler_screenshot req Hreq).
  unfold screenshot, mbind, prog_bind. rewrite run_bind, run_settle, Hopt.
  cbn [bind]. rewrite run_bind.
  destruct (run w [] (capture options)) as [tr [r|e]]; cbn [fst snd run attempt_of];
    by rewrite unguarded_conclude.
Qed.

(** C6.  The answer to a [/screenshot] request carries the payload bytes and
    the rendered width and height exactly when its status is 200, and then
    they are the bytes and the dimensions the browser gave and no error is
    carried; it carries an error message, with no payload and no dimensions,
    exactly when its status is 500; and there is no third status. *)
Theorem response_payload_iff_succeeded (w : world) (req : request) :
  to_screenshot req = true ->
  let tr := (run w [] (handler req fresh_response)).1 in
  exists res, (run w [] (handler req fresh_response)).2 = Resolved res /\
    ((statusCode res = 200 /\
      (exists b, payload_of res = Some b /\ Some b ∈ captured <$> tr) /\
      (exists wh, dimensions_of res = Some wh /\ Some wh ∈ measured <$> tr) /\
      error_of res = None) \/
     (statusCode res = 500 /\ payload_of res = None /\ dimensions_of res = None /\
      is_Some (error_of res))).
Proof.
  intros Hreq tr. subst tr.
  assert (Hfail : forall e,
    statusCode (error_response e) = 500 /\ payload_of (error_response e) = None /\
    dimensions_of (error_response e) = None /\ is_Some (error_of (error_response e))).
  { intros e. destruct (error_response_reads e) as (? & _ & ? & ? & ->). eauto. }
  destruct (read_options_pure req) as [[options Hopt]|[e Hopt]].
  - rewrite (run_screenshot_captured w req options Hreq Hopt). cbn [fst snd].
    pose proof (always_run0 _ _ w (capture_returns_what_it_saw options)) as Hsaw.
    destruct (run w [] (capture options)) as [tr [r|e]]; cbn [fst snd attempt_of] in *.
    + destruct (Hsaw r eq_refl) as [Hdata Hdims].
      destruct (conclude_resolved options r) as (res & -> & [(?&?&?&?&?)| ->]).
      * exists res. split; [done|]. left. eauto 10.
      * eexists. split; [done|]. right. apply Hfail.
    + rewrite conclude_rejected. eexists. split; [done|]. right. apply Hfail.
  - rewrite (run_screenshot_thrown w req e Hreq Hopt).
    eexists. split; [done|]. right. apply Hfail.
Qed.

Lemma response_payload_iff_succeeded_witness :
  let req := Sample.get {["url" := JStr "https://example.com"]} in
  to_screenshot req = true /\
  exists res, (run Sample.happy [] (handler req fresh_response)).2 = Resolved res /\
    (statusCode res = 200 \/ statusCode res = 500).
Proof.
  intros req. split; [reflexivity|].
  destruct (response_payload_iff_succeeded Sample.happy req eq_refl)
    as (res & Hres & [(? & _)|(? & _)]); exists res; auto.
Defined.

Lemma capture_failures options :
  always (capture options) (fun tr o =>
    holding None tr = Some None /\
    match o with
    | Resolved _ => Forall (fun ev => rejection ev = None) tr
    | Rejected e => tr = [] \/ Some e ∈ rejection <$> tr
    end).
Proof.
  unfold capture. walk.
  all: split; [log_facts|].
  all: first [by left | by repeat constructor | by (right; in_log)].
Qed.

Lemma always_screenshot req (Q : list event -> outcome response -> Prop) :
  (forall e, read_options req = Throw e -> Q [] (Resolved (error_response e))) ->
  (forall options, read_options req = Ret options ->
     always (capture options) (fun tr o =>
       Q tr (Resolved (conclude (attempt_of options o) cors_response).1))) ->
  always (screenshot req cors_response) Q.
Proof.
  intros Hthrown Hcaptured. unfold screenshot, mbind, prog_bind.
  apply always_bind, always_settle.
  destruct (read_options_pure req) as [[options Hopt]|[e Hopt]]; rewrite Hopt; cbn [bind].
  - apply always_bind. eapply always_mono; [|apply (Hcaptured options Hopt)].
    intros tr [r|e] HQ; cbn [always attempt_of] in *;
      rewrite unguarded_conclude; cbn [always]; by rewrite ?app_nil_r.
  - cbn [always]. rewrite unguarded_conclude. cbn [always].
    rewrite conclude_rejected. by apply Hthrown.
Qed.

Lemma error_response_answers req tr e :
  (tr = [] \/ Some e ∈ rejection <$> tr) -> answers req tr (error_response e).
Proof.
  intros Htr. destruct (error_response_reads e) as (? & ? & ? & ? & He).
  split; [done|]. split; [by eexists|].
  intros _. right. rewrite He. split_and!; [done..|].
  intros e0 He0. destruct Htr as [->|Htr]; [by inversion He0|]. eauto.
Qed.

Lemma handler_unparsable req e :
  target req = Unparsable e -> handler req fresh_response = Throw e.
Proof. unfold handler. by intros ->. Qed.

Lemma thrown_target req e : thrown req = Some e -> target req = Unparsable e.
Proof. unfold thrown. destruct (target req); by intros [= ->]. Qed.

Lemma handler_safely req :
  thrown req = None -> always (handler req fresh_response) (safely req).
Proof.
  intros Hparsed. destruct (to_screenshot req) eqn:Hreq.
  - rewrite (handler_screenshot req Hreq). apply always_screenshot.
    + intros e _. split; [done|]. eexists. split; [done|].
      apply error_response_answers. by left.
    + intros options _. eapply always_mono; [|apply (capture_failures options)].
      intros tr o [Hheld Ho]. split; [done|]. eexists. split; [done|].
      destruct o as [r|e]; cbn [attempt_of].
      * destruct (conclude_resolved options r) as (res & -> & [(?&?&Hp&?&?)| ->]).
        -- cbn [fst]. split; [done|]. split.
           { unfold payload_of in Hp. destruct (body res); [by eexists|done]. }
           intros _. left. rewrite Hp. eauto.
        -- cbn [fst]. destruct (error_response_reads
                  (ERR_HTTP_INVALID_HEADER_VALUE "Content-Type")) as (? & ? & ? & ? & He).
           split; [done|]. split; [by eexists|].
           intros _. right. rewrite He. split_and!; [done..|].
           intros e0 (ev & He0 & Hev)%list_elem_of_fmap.
           rewrite Forall_forall in Ho. by rewrite (Ho ev Hev) in He0.
      * rewrite conclude_rejected. by apply error_response_answers.
  - unfold thrown in Hparsed. unfold safely, answers. rewrite Hreq.
    unfold handler, to_screenshot in *.
    destruct (target req) as [pathname query|e]; [|discriminate].
    unfold unguarded, mbind, prog_bind. rewrite cors_ok. cbn [bind].
    destruct (String.eqb (method req) "OPTIONS") eqn:Hm; cbn [negb andb] in *.
    { cbn. split; [done|]. eexists. split; [done|]. split_and!; [done|by eexists|done]. }
    destruct (String.eqb pathname "/health") eqn:Hh; cbn [negb andb] in *.
    { intros t. cbn. split; [done|]. eexists. split; [done|].
      split_and!; [done|by eexists|done]. }
    rewrite Hreq.
    destruct (String.eqb pathname "/").
    all: cbn; split; [done|]; eexists; (split; [done|]);
      split_and!; [done|by eexists|done].
Qed.

(** Whatever the request, its handler holds one handle at most and has given
    it back when it ends. *)
Lemma handler_holding req :
  always (handler req fresh_response) (fun tr _ => holding None tr = Some None).
Proof.
  destruct (thrown req) as [e|] eqn:Hthrown.
  - by rewrite (handler_unparsable req e (thrown_target req e Hthrown)).
  - eapply always_mono; [|apply (handler_safely req Hthrown)]. by intros tr o [? _].
Qed.

(** A [format] the content-type table does not know: [capture] takes the PNG,
    and it is the handler that then fails to send it as binary, on the
    [Content-Type] header; asked for JSON, it sends it. *)
Example unknown_format_binary_answer :
  let q : Options := {["url" := JStr "https://example.com"; "format" := JStr "gif"]} in
  let sent := fun q => match (run Sample.happy [] (handler (Sample.get q) fresh_response)).2 with
                       | Resolved res => Some (statusCode res, error_of res)
                       | Rejected _ => None
                       end in
  sent q = Some (500, Some (message (ERR_HTTP_INVALID_HEADER_VALUE "Content-Type"))) /\
  sent (<["returnJson" := JStr "true"]> q) = Some (200, None).
Proof. split; vm_compute; reflexivity. Qed.

(** ** Several requests in flight *)

Lemma holding_app h l1 l2 :
  holding h (l1 ++ l2) = holding h l1 ≫= fun h' => holding h' l2.
Proof.
  revert h. induction l1 as [|ev l1 IH]; intros h; simpl; [done|].
  destruct (hold h ev); simpl; [apply IH|done].
Qed.

Lemma hold_track h ev h' X :
  hold h ev = Some h' -> track (handle_set h ⊎ X) ev = handle_set h' ⊎ X.
Proof.
  unfold hold, track.
  destruct (checkout ev), (checkin ev), h; simpl; repeat case_match;
    intros; simplify_eq/=; multiset_solver.
Qed.

Lemma open_pages_snoc log ev : open_pages (log ++ [ev]) = track (open_pages log) ev.
Proof. unfold open_pages. by rewrite foldl_app. Qed.

Lemma holding_open_pages log h :
  holding None log = Some h -> open_pages log = handle_set h.
Proof.
  revert h. induction log as [|ev log IH] using rev_ind; intros h.
  - simpl. by intros [= <-].
  - rewrite holding_app, open_pages_snoc.
    destruct (holding None log) as [h0|]; [|done]. simpl.
    destruct (hold h0 ev) as [h1|] eqn:Hhold; [|done]. intros [= <-].
    rewrite (IH h0 eq_refl).
    pose proof (hold_track h0 ev h1 ∅ Hhold) as Ht.
    by rewrite !(right_id_L ∅ (⊎)) in Ht.
Qed.

Lemma slot_safely req log m :
  thrown req = None ->
  follows (handler req fresh_response) log m ->
  always m (fun tr o => safely req (log ++ tr) o).
Proof.
  intros Hparsed Hslot.
  exact (always_follows (handler req fresh_response) (safely req) log m
           (handler_safely req Hparsed) Hslot).
Qed.

Lemma slot_holds req log m :
  follows (handler req fresh_response) log m ->
  always m (fun tr _ => holding None (log ++ tr) = Some None).
Proof.
  intros Hslot.
  exact (always_follows (handler req fresh_response) _ log m
           (handler_holding req) Hslot).
Qed.

Lemma slot_holding req log m :
  follows (handler req fresh_response) log m ->
  exists h, holding None log = Some h.
Proof.
  intros Hslot.
  destruct (always_inhabited m _ (slot_holds req log m Hslot)) as (tr & o & Hheld).
  rewrite holding_app in Hheld.
  destruct (holding None log) as [h|]; [eauto|done].
Qed.

Lemma slot_never_throws req log e :
  thrown req = None ->
  ~ follows (handler req fresh_response) log (Throw e).
Proof.
  intros Hparsed Hslot.
  pose proof (slot_safely req log _ Hparsed Hslot) as H. cbn [always] in H.
  by destruct H as (_ & res & ? & _).
Qed.

Lemma slot_answered req log res :
  thrown req = None ->
  follows (handler req fresh_response) log (Ret res) ->
  holding None log = Some None /\ answers req log res.
Proof.
  intros Hparsed Hslot.
  pose proof (slot_safely req log _ Hparsed Hslot) as H. cbn [always] in H.
  rewrite app_nil_r in H. destruct H as (? & res' & [= <-] & ?). done.
Qed.

Lemma slot_idle req log m :
  follows (handler req fresh_response) log m ->
  pending m = false -> open_pages log = ∅.
Proof.
  intros Hslot Hm. apply (holding_open_pages log None).
  pose proof (slot_holds req log m Hslot) as H.
  destruct m as [res|e| | |]; try done; cbn [always] in H; by rewrite app_nil_r in H.
Qed.

Lemma slot_one_page req log m :
  follows (handler req fresh_response) log m ->
  (base.size (open_pages log) <= 1)%nat.
Proof.
  intros Hslot. destruct (slot_holding req log m Hslot) as [h Hh].
  rewrite (holding_open_pages log h Hh).
  destruct h; cbn [handle_set];
    [by rewrite gmultiset_size_singleton|rewrite gmultiset_size_empty; lia].
Qed.

Lemma slot_step req log m ev m' h :
  follows (handler req fresh_response) log m ->
  hstep m ev m' ->
  holding None log = Some h ->
  follows (handler req fresh_response) (log ++ [ev]) m' /\
  exists h', hold h ev = Some h'.
Proof.
  intros Hslot Hstep Hh.
  assert (Hslot' : follows (handler req fresh_response) (log ++ [ev]) m')
    by (by econstructor).
  split; [done|].
  destruct (slot_holding req _ m' Hslot') as [h' Hh'].
  rewrite holding_app, Hh in Hh'. simpl in Hh'.
  destruct (hold h ev) as [h1|]; [eauto|done].
Qed.

Lemma held_insert logs i log :
  logs !! i = Some log ->
  exists X, held logs = open_pages log ⊎ X /\
    forall log', held (<[i := log']> logs) = open_pages log' ⊎ X.
Proof.
  revert i. induction logs as [|l logs IH]; intros [|i] Hi; simplify_eq/=.
  - exists (held logs). done.
  - destruct (IH i Hi) as (X & HX & Hins). exists (open_pages l ⊎ X). split.
    + rewrite HX. multiset_solver.
    + intros log'. rewrite Hins. multiset_solver.
Qed.

Lemma Forall3_insert_mr {A B C} (P : A -> B -> C -> Prop) l k k' i x y z :
  Forall3 P l k k' -> l !! i = Some x -> P x y z ->
  Forall3 P l (<[i := y]> k) (<[i := z]> k').
Proof.
  intros H. revert i. induction H as [|x0 y0 z0 l k k' HP H IH]; intros [|i] Hi HPx;
    simplify_eq/=; constructor; auto.
Qed.

Lemma serving_boot requests : serving requests (boot requests).
Proof.
  exists ((fun _ => []) <$> requests). split.
  - unfold boot. cbn [inflight].
    induction requests as [|req requests IH]; constructor; [constructor|done].
  - unfold boot. cbn [pages]. induction requests as [|req requests IH]; [done|].
    change (∅ = open_pages [] ⊎ held ((fun _ => []) <$> requests)).
    rewrite <- IH. unfold open_pages. simpl. multiset_solver.
Qed.

Lemma serving_step requests s s' :
  serving requests s -> sstep s s' -> serving requests s'.
Proof.
  intros (logs & Hall & Hpages) [i m ev m' Hi Hstep].
  destruct (Forall3_lookup_m _ _ _ _ _ _ Hall Hi) as (req & log & Hreq & Hlog & Hslot).
  destruct (slot_holding req log m Hslot) as [h Hh].
  destruct (slot_step req log m ev m' h Hslot Hstep Hh) as (Hslot' & h' & Hhold).
  exists (<[i := log ++ [ev]]> logs). split; cbn [inflight pages].
  - by eapply Forall3_insert_mr.
  - destruct (held_insert logs i log Hlog) as (X & HX & Hins).
    rewrite Hins, Hpages, HX, open_pages_snoc, (holding_open_pages log h Hh).
    rewrite (hold_track h ev h' X Hhold).
    pose proof (hold_track h ev h' ∅ Hhold) as Ht.
    rewrite !(right_id_L ∅ (⊎)) in Ht. by rewrite Ht.
Qed.

Lemma serving_reachable requests s :
  rtc sstep (boot requests) s -> serving requests s.
Proof.
  intros H.
  apply (rtc_ind_r (R := sstep) (fun s => serving requests s) (boot requests));
    [apply serving_boot| |exact H].
  intros s1 s2 _ Hstep IH. by apply (serving_step requests s1 s2).
Qed.

Lemma held_bound requests ms logs :
  Forall3 (fun req m log => follows (handler req fresh_response) log m)
    requests ms logs ->
  (base.size (held logs) <= length (List.filter pending ms))%nat.
Proof.
  induction 1 as [|req m log requests ms logs Hslot _ IH]; cbn [held foldr List.filter].
  - by rewrite gmultiset_size_empty.
  - change (foldr (fun log acc => open_pages log ⊎ acc) ∅ logs) with (held logs).
    rewrite gmultiset_size_disj_union.
    destruct (pending m) eqn:Hm; cbn [length].
    + pose proof (slot_one_page req log m Hslot). lia.
    + rewrite (slot_idle req log m Hslot Hm), gmultiset_size_empty. lia.
Qed.

Lemma filter_length_le {A} (f : A -> bool) l :
  (length (List.filter f l) <= length l)%nat.
Proof. induction l as [|x l IH]; simpl; [lia|]. destruct (f x); simpl; lia. Qed.

(** C1, as the code has it.  The server has no limit on concurrency: each
    handler in flight holds at most one page handle, so at any instant the
    pages open are at most as many as the requests still being handled, and
    so at most as many as the requests of the batch. *)
Theorem open_pages_bounded_by_requests (requests : list request) (s : server) :
  rtc sstep (boot requests) s ->
  (base.size (pages s) <= length (List.filter pending (inflight s)))%nat /\
  (length (List.filter pending (inflight s)) <= length requests)%nat.
Proof.
  intros (logs & Hall & ->)%serving_reachable. split.
  - by eapply held_bound.
  - rewrite (Forall3_length_lm _ _ _ _ Hall). apply filter_length_le.
Qed.

Lemma advance_hstep {R : Type} w (m : prog R) ev m' :
  advance w m = Some (ev, m') -> hstep m ev m'.
Proof. destruct m; simpl; intros; simplify_eq; eauto. Qed.

Lemma serve_reachable w i s : rtc sstep s (serve w i s).
Proof.
  unfold serve. destruct (inflight s !! i) as [m|] eqn:Hi; simpl; [|done].
  destruct (advance w m) as [[ev m']|] eqn:Hadv; [|done].
  apply rtc_once. econstructor; [done|by eapply advance_hstep].
Qed.

(** C1 does not hold as stated: whatever limit of at least 1 a batch is meant
    to run under, here 1, two requests in flight have two pages open at the
    same time once both their [newPage] calls have resolved. *)
Lemma two_requests_two_pages :
  let req := Sample.get {["url" := JStr "https://example.com"]} in
  let C := 1%nat in
  let s := serve (Sample.browser 2%nat) 1%nat (serve (Sample.browser 1%nat) 0%nat (boot [req; req])) in
  rtc sstep (boot [req; req]) s /\
  pages s = {[+ 1%nat; 2%nat +]} /\
  (C < base.size (pages s))%nat.
Proof.
  intros req C s. split; [|split].
  - etrans; apply serve_reachable.
  - vm_compute. reflexivity.
  - vm_compute. lia.
Qed.

Lemma open_pages_bounded_by_requests_witness :
  let req := Sample.get {["url" := JStr "https://example.com"]} in
  let s := serve (Sample.browser 2%nat) 1%nat (serve (Sample.browser 1%nat) 0%nat (boot [req; req])) in
  rtc sstep (boot [req; req]) s /\ (base.size (pages s) <= 2)%nat.
Proof.
  intros req s.
  assert (Hs : rtc sstep (boot [req; req]) s) by (etrans; apply serve_reachable).
  split; [exact Hs|].
  destruct (open_pages_bounded_by_requests [req; req] s Hs) as [H1 H2].
  exact (Nat.le_trans _ _ _ H1 H2).
Defined.

Lemma prog_acc {R : Type} (m : prog R) : Acc hnext m.
Proof.
  induction m as [r|e|c k IH|ms k IH|k IH]; constructor; intros m' [ev Hstep];
    cbn [hstep] in Hstep.
  - destruct Hstep.
  - destruct Hstep.
  - destruct Hstep as (o & d & _ & ->). apply IH.
  - destruct Hstep as [_ ->]. apply IH.
  - destruct Hstep as (t & _ & ->). apply IH.
Qed.

Lemma lnext_cons_acc {R : Type} (m : prog R) :
  Acc hnext m -> forall l, Acc lnext l -> Acc lnext (m :: l).
Proof.
  induction 1 as [m _ IHm]. intros l Hl. induction Hl as [l Hl IHl].
  constructor. intros l' (i & m0 & ev & m' & Hi & Hstep & ->).
  destruct i as [|i]; simplify_eq/=.
  - apply IHm; [by exists ev|by constructor].
  - apply IHl. by exists i, m0, ev, m'.
Qed.

Lemma lnext_acc {R : Type} (l : list (prog R)) : Acc lnext l.
Proof.
  induction l as [|m l IH].
  - constructor. by intros l' (i & m0 & ev & m' & Hi & _).
  - apply lnext_cons_acc; [apply prog_acc|done].
Qed.

Lemma server_terminating s : terminating s.
Proof.
  unfold terminating. pose proof (lnext_acc (inflight s)) as Hacc.
  remember (inflight s) as l eqn:Hl. revert s Hl.
  induction Hacc as [l _ IH]. intros s ->. constructor.
  intros s' [i m ev m' Hi Hstep]. eapply IH; [|done].
  by exists i, m, ev, m'.
Qed.

Lemma pending_hstep {R : Type} (m : prog R) :
  pending m = true -> exists ev m', hstep m ev m'.
Proof.
  destruct m as [r|e|c k|ms k|k]; try done; intros _; simpl.
  - exists (EvAwait c (Rejected (Error "")) 0), (k (Rejected (Error ""))). eauto.
  - eauto.
  - exists (EvNow ""), (k ""). eauto.
Qed.

Lemma idle_slots_answered requests ms logs :
  Forall (fun req => thrown req = None) requests ->
  Forall3 (fun req m log => follows (handler req fresh_response) log m)
    requests ms logs ->
  (forall i m, ms !! i = Some m -> pending m = false) ->
  Forall2 (fun req m => exists res, m = Ret res) requests ms.
Proof.
  intros Hparsed Hall. revert Hparsed.
  induction Hall as [|req m log requests ms logs Hslot _ IH];
    intros Hparsed Hidle; constructor.
  - pose proof (Hidle 0%nat m eq_refl) as Hm.
    destruct m as [res|e| | |]; [by eexists| |discriminate..].
    destruct (slot_never_throws req log e); [|done].
    by apply (Forall_inv Hparsed).
  - apply IH; [by apply (Forall_inv_tail Hparsed)|].
    intros i m' Hi. by apply (Hidle (S i) m').
Qed.

(** A handler that has thrown stays where it is, whatever its siblings do. *)
Lemma thrown_slot_stays s s' i e :
  rtc sstep s s' -> inflight s !! i = Some (Throw e) ->
  inflight s' !! i = Some (Throw e).
Proof.
  induction 1 as [s|s1 s2 s3 Hstep _ IH]; [done|]. intros Hi. apply IH.
  destruct Hstep as [j m ev m' Hj Hstep]. cbn [inflight].
  destruct (decide (j = i)) as [->|Hne].
  - rewrite Hi in Hj. injection Hj as <-. destruct Hstep.
  - by rewrite list_lookup_insert_ne.
Qed.

(** C2.  The claim fails on the code.  [url.parse] is called before the
    [try] of the [/screenshot] branch, so on a request whose target it cannot
    parse the exception is not made a result: it leaves the callback, the
    request gets no response whatever the browser does, and from the moment
    it arrives the server is in the state in which node ends the process,
    with the sibling request still in flight. *)
Theorem unparsable_target_ends_batch :
  let good := Sample.get {["url" := JStr "https://example.com"]} in
  let bad := Sample.undecodable in
  (forall w, run w [] (handler bad fresh_response) = ([], Rejected URI_malformed)) /\
  pending (handler good fresh_response) = true /\
  forall s, rtc sstep (boot [good; bad]) s ->
    crashed s /\ inflight s !! 1%nat ≫= answered = None.
Proof.
  intros good bad. split; [done|]. split; [done|].
  intros s Hs.
  assert (Hslot : inflight s !! 1%nat = Some (Throw URI_malformed))
    by (by apply (thrown_slot_stays _ _ _ _ Hs)).
  split; [by exists 1%nat, URI_malformed|]. by rewrite Hslot.
Qed.

(** A batch of two, one of them to a host that cannot be reached, each
    handler run to its end: a 200 for the one and a 500 for the other. *)
Example one_fails_one_succeeds :
  let good := Sample.get {["url" := JStr "https://example.com"]} in
  let bad := Sample.get {["url" := JStr "https://unreachable.invalid"]} in
  let s := Nat.iter 8 (serve Sample.happy 0%nat)
             (Nat.iter 4 (serve Sample.unreachable 1%nat) (boot [good; bad])) in
  (fun m => statusCode <$> answered m) <$> inflight s = [Some 200; Some 500] /\
  pages s = ∅.
Proof. split; vm_compute; reflexivity. Qed.

(** ** The kernel of the specification *)

(** C8.  [runBatch] turns the whole batch down, with no call on the browser
    made, when two requests share an [outputKey] or the concurrency limit is
    below 1. *)
Theorem runBatch_rejects_before_any_capture
    (w : world) (requests : list Kernel.CaptureRequest) (N : Z) :
  ~ NoDup (Kernel.outputKey <$> requests) \/ N < 1 ->
  exists err, Kernel.runBatch w requests N = ([], inl err).
Proof.
  intros H. unfold Kernel.runBatch. case_bool_decide as Hdup; [|by eexists].
  destruct H as [H|H]; [done|].
  apply Z.ltb_lt in H. rewrite H. by eexists.
Qed.

Lemma runBatch_rejects_before_any_capture_witness :
  let r := {| Kernel.url := "https://example.com";
              Kernel.viewport := {| Kernel.width := 1280; Kernel.height := 800;
                                    Kernel.isMobile := false |};
              Kernel.format := Kernel.PNG; Kernel.delayMs := 0;
              Kernel.timeoutMs := 30000; Kernel.outputKey := "example" |} in
  (~ NoDup (Kernel.outputKey <$> [r; r]) \/ 3 < 1) /\
  exists err, Kernel.runBatch Sample.happy [r; r] 3 = ([], inl err).
Proof.
  intros r.
  assert (H : ~ NoDup (Kernel.outputKey <$> [r; r]) \/ 3 < 1).
  { left. intros Hnd. apply NoDup_cons_1_1 in Hnd. apply Hnd. left. }
  split; [exact H|].
  exact (runBatch_rejects_before_any_capture Sample.happy [r; r] 3 H).
Defined.

(** C7.  For a [previous] that is not later than [current], the comparison
    gives [differencePercent = 100 * |size(current) - size(previous)| /
    max(size(previous), 1)] over the byte lengths of the stored payloads and
    [changed = (differencePercent > threshold)]; [compareArtifacts] is the
    comparison at the threshold 5; and an artifact compared with itself
    gives 0 and [changed = false]. *)
Theorem compareArtifacts_size_delta
    (threshold : Qc) (previous current : Kernel.Artifact) :
  Kernel.timestamp previous <= Kernel.timestamp current ->
  (exists record,
     Kernel.compare threshold previous current = inr record /\
     Kernel.differencePercent record =
       (Qc_of_Z 100
        * Qc_of_Z (Z.abs (Z.of_nat (length (Kernel.stored current))
                          - Z.of_nat (length (Kernel.stored previous))))
        / Qc_of_Z (Z.max (Z.of_nat (length (Kernel.stored previous))) 1))%Qc /\
     Kernel.changed record
       = bool_decide (threshold < Kernel.differencePercent record)%Qc) /\
  Kernel.compareArtifacts previous current
    = Kernel.compare (Qc_of_Z 5) previous current /\
  (exists record,
     Kernel.compareArtifacts current current = inr record /\
     Kernel.differencePercent record = Qc_of_Z 0 /\
     Kernel.changed record = false).
Proof.
  intros Hle. split; [|split; [reflexivity|]].
  - unfold Kernel.compare.
    destruct (Kernel.timestamp current <? Kernel.timestamp previous) eqn:Hlt;
      [apply Z.ltb_lt in Hlt; lia|].
    eexists. split; [reflexivity|]. split; reflexivity.
  - unfold Kernel.compareArtifacts, Kernel.compare. rewrite Z.ltb_irrefl.
    eexists. split; [reflexivity|]. cbn [Kernel.differencePercent Kernel.changed].
    rewrite Z.sub_diag. change (Z.abs 0) with 0.
    assert (H0 : Qc_of_Z 0 = Q2Qc 0) by (by apply Qc_is_canon).
    assert (Hz : (Qc_of_Z 100 * Qc_of_Z 0
                  / Qc_of_Z (Z.max (Kernel.size current) 1))%Qc = Qc_of_Z 0).
    { unfold Qcdiv. by rewrite H0, Qcmult_0_r, Qcmult_0_l. }
    rewrite Hz. split; [done|]. apply bool_decide_eq_false.
    intros Hlt. vm_compute in Hlt. discriminate.
Qed.

Lemma compareArtifacts_size_delta_witness :
  let a := {| Kernel.key := "example"; Kernel.timestamp := 1;
              Kernel.stored := [x00; x01; x02; x03] |} in
  let b := {| Kernel.key := "example"; Kernel.timestamp := 2;
              Kernel.stored := [x00; x01; x02; x03; x04] |} in
  Kernel.timestamp a <= Kernel.timestamp b /\
  exists record, Kernel.compareArtifacts a b = inr record /\
    Kernel.differencePercent record = Qc_of_Z 25 /\
    Kernel.changed record = true.
Proof.
  intros a b.
  assert (H : Kernel.timestamp a <= Kernel.timestamp b) by (vm_compute; discriminate).
  split; [exact H|].
  destruct (compareArtifacts_size_delta (Qc_of_Z 5) a b H)
    as ((record & Hrec & Hpct & Hch) & Hdef & _).
  exists record. rewrite Hdef. split; [exact Hrec|].
  rewrite Hch, Hpct. split; [by apply Qc_is_canon|by vm_compute].
Defined.

(** * Further properties of the server *)

(** ** The steps of one attempt *)

Lemma fails_fast_spec tr :
  fails_fast tr = true ->
  forall i j ev ev', (i < j)%nat -> tr !! i = Some ev -> tr !! j = Some ev' ->
    rejection ev = None \/ stage ev' = 8%nat.
Proof.
  induction tr as [|ev0 tr IH]; intros H i j ev ev' Hij Hi Hj; [done|].
  cbn [fails_fast] in H. apply andb_prop in H as [H0 Htr].
  destruct i as [|i]; simplify_eq/=.
  - destruct j as [|j]; [lia|]. cbn in Hj.
    apply orb_prop in H0 as [H0|H0]; [left; by apply bool_decide_eq_true in H0|].
    right. rewrite forallb_forall in H0. apply Nat.eqb_eq, H0.
    apply list_elem_of_In, list_elem_of_lookup. eauto.
  - destruct j as [|j]; [lia|]. cbn in Hj. apply (IH Htr i j); [lia|done..].
Qed.

Lemma ascending_sorted l : ascending l = true -> StronglySorted lt l.
Proof.
  induction l as [|x l IH]; intros H; [constructor|].
  cbn [ascending] in H. apply andb_prop in H as [Hx Hl].
  constructor; [by apply IH|].
  rewrite forallb_forall in Hx. apply Forall_forall. intros y Hy.
  apply Nat.ltb_lt, Hx. by apply list_elem_of_In.
Qed.

Lemma capture_steps options :
  always (capture options) (fun tr o =>
    StronglySorted lt (stage <$> tr) /\
    fails_fast tr = true /\
    (forall ev, ev ∈ tr -> stage ev = 6%nat ->
       Forall (fun n => n ∈ stage <$> tr) [0; 1; 2; 5]%nat /\
       Some (field options "targetUrl", timeoutMs options) ∈ navigation <$> tr) /\
    (forall r, o = Resolved r -> Forall (fun ev => rejection ev = None) tr)).
Proof.
  unfold capture, timeoutMs. walk.
  all: split_and!.
  all: try (apply ascending_sorted; reflexivity).
  all: try (cbn [fails_fast rejection forallb stage]; reflexivity).
  all: try (intros r Hr; simplify_eq; by repeat constructor).
  all: intros ev Hin Hst.
  all: repeat (apply elem_of_cons in Hin as [->|Hin]); try (by inversion Hin);
       try discriminate Hst.
  all: split; [cbn [fmap list_fmap stage]; repeat constructor; in_log|in_log].
Qed.

(** X1.  [capture] takes its steps in the order of the source, each at most
    once: page, viewport, navigation, wait, sticky elements, dimensions,
    capture, clock, close.  A screenshot or a PDF is taken only in an attempt
    that has created the page, set the viewport, navigated to the [url] of
    the request with its time limit, and read the dimensions. *)
Theorem capture_steps_in_order (w : world) (options : Options) :
  let tr := (run w [] (capture options)).1 in
  StronglySorted lt (stage <$> tr) /\
  forall ev, ev ∈ tr -> stage ev = 6%nat ->
    Forall (fun n => n ∈ stage <$> tr) [0; 1; 2; 5]%nat /\
    Some (field options "targetUrl", timeoutMs options) ∈ navigation <$> tr.
Proof.
  destruct (always_run0 _ _ w (capture_steps options)) as (? & _ & ? & _). done.
Qed.

(** X2.  [capture] stops at the first call the browser rejects: an event that
    is followed by anything but [page.close()] was resolved, so after a
    rejected call nothing more is asked of the page than to close; and
    [capture] returns a result only if no call at all was rejected, the
    closing of the page included. *)
Theorem capture_stops_at_first_rejection (w : world) (options : Options) :
  let tr := (run w [] (capture options)).1 in
  let o := (run w [] (capture options)).2 in
  (forall i j ev ev', (i < j)%nat -> tr !! i = Some ev -> tr !! j = Some ev' ->
     rejection ev = None \/ stage ev' = 8%nat) /\
  (forall r, o = Resolved r -> Forall (fun ev => rejection ev = None) tr).
Proof.
  destruct (always_run0 _ _ w (capture_steps options)) as (_ & Hff & _ & Hres).
  split; [by apply fails_fast_spec|done].
Qed.

Lemma capture_outcome options :
  always (capture options) (fun tr o =>
    match o with
    | Resolved _ =>
        truthy (field options "targetUrl") = true /\ omap rejection tr = []
    | Rejected e =>
        if truthy (field options "targetUrl")
        then last (omap rejection tr) = Some e
        else tr = [] /\ e = Error "URL is required"
    end).
Proof.
  unfold capture. destruct (truthy (field options "targetUrl")); cbn [negb]; [|done].
  walk. all: cbn [omap list_omap rejection last]; done.
Qed.


(** ** What the handler sends *)

Lemma run_screenshot_reply w req options :
  to_screenshot req = true ->
  read_options req = Ret options ->
  run w [] (handler req fresh_response) =
    ((run w [] (capture options)).1,
     Resolved (response_to options (run w [] (capture options)).2)).
Proof.
  intros Hreq Hopt. rewrite (run_screenshot_captured w req options Hreq Hopt).
  destruct ((run w [] (capture options)).2) as [r|e]; cbn [attempt_of response_to].
  - by rewrite conclude_delivery.
  - by rewrite conclude_rejected.
Qed.

Lemma run_elsewhere w req :
  to_screenshot req = false ->
  run w [] (handler req fresh_response) =
    match target req with
    | Unparsable e => ([], Rejected e)
    | Parsed pathname _ =>
        if String.eqb (method req) "OPTIONS" then ([], Resolved preflight_response)
        else if String.eqb pathname "/health"
             then ([EvNow (clock w [])], Resolved (health_response (clock w [])))
        else if String.eqb pathname "/" then ([], Resolved docs_response)
        else ([], Resolved not_found_response)
    end.
Proof.
  unfold to_screenshot, handler.
  destruct (target req) as [pathname query|e]; [|reflexivity].
  unfold unguarded, mbind, prog_bind. rewrite cors_ok.
  cbn [bind]. intros Hreq.
  destruct (String.eqb (method req) "OPTIONS"); [reflexivity|].
  destruct (String.eqb pathname "/health"); [reflexivity|].
  cbn [negb andb] in Hreq. rewrite Hreq.
  destruct (String.eqb pathname "/"); reflexivity.
Qed.

Lemma read_options_given req options :
  read_options req = Ret options -> field options "targetUrl" = given_url req.
Proof.
  unfold read_options, given_url, field.
  destruct (String.eqb (method req) "POST").
  - destruct (posted req) as [o|[]| |e]; intros; simplify_eq; try done.
    all: by rewrite ?lookup_insert_eq.
  - destruct (target req) as [pathname query|e]; [|done].
    intros [= <-]. by rewrite lookup_insert_eq.
Qed.







Lemma delivery_status options result :
  statusCode (delivery options result) = 200 \/
  statusCode (delivery options result) = 500.
Proof.
  unfold delivery. destruct (wants_json options); [by left|].
  destruct (known_type options); [by left|by right].
Qed.

Lemma screenshot_answer w req :
  to_screenshot req = true ->
  exists res, (run w [] (handler req fresh_response)).2 = Resolved res /\
    (statusCode res = 200 \/ statusCode res = 500).
Proof.
  intros Hreq. destruct (read_options_pure req) as [[options Hopt]|[e Hopt]].
  - rewrite (run_screenshot_reply w req options Hreq Hopt). eexists. split; [done|].
    cbn [snd]. destruct ((run w [] (capture options)).2); cbn [response_to];
      [apply delivery_status|by right].
  - rewrite (run_screenshot_thrown w req e Hreq Hopt). eexists. split; [done|]. by right.
Qed.

Lemma to_screenshot_true req :
  to_screenshot req = true <->
  method req <> "OPTIONS" /\ exists query, target req = Parsed "/screenshot" query.
Proof.
  unfold to_screenshot. destruct (target req) as [pathname query|e].
  - rewrite !andb_true_iff, !negb_true_iff, !String.eqb_neq, String.eqb_eq. split.
    + intros [[? ?] ->]. eauto.
    + intros [? [query' [= -> _]]]. done.
  - split; [done|]. by intros [_ [query' ?]].
Qed.

(** X5.  A request whose target [url.parse] cannot parse gets no answer: the
    exception leaves the callback before a header is set or the browser is
    asked for anything.  Every other request is answered, whatever the
    browser does, and the status of the answer follows the route: 204 with an
    empty body and no work at all for OPTIONS, whatever the path; 404 with
    [Not found] for any other request to a path that is none of [/health],
    [/screenshot], [/]; 500 on [/screenshot] only; 200 otherwise. *)
Theorem status_follows_route (w : world) (req : request) :
  let tr := (run w [] (handler req fresh_response)).1 in
  let o := (run w [] (handler req fresh_response)).2 in
  match target req with
  | Unparsable e => tr = [] /\ o = Rejected e
  | Parsed pathname _ =>
      exists res, o = Resolved res /\
        (statusCode res = 204 <-> method req = "OPTIONS") /\
        (method req = "OPTIONS" -> body res = Some Empty /\ tr = []) /\
        (statusCode res = 404 <->
           method req <> "OPTIONS" /\ pathname ∉ ["/health"; "/screenshot"; "/"]) /\
        (statusCode res = 404 -> error_of res = Some "Not found") /\
        (statusCode res = 500 -> to_screenshot req = true) /\
        statusCode res ∈ [200; 204; 404; 500]
  end.
Proof.
  destruct (to_screenshot req) eqn:Hreq.
  - destruct (screenshot_answer w req Hreq) as (res & Hres & Hst).
    apply to_screenshot_true in Hreq as [Hm [query ->]].
    exists res. split; [done|]. split_and!.
    + split; [intros H; destruct Hst; congruence|done].
    + done.
    + split; [intros H; destruct Hst; congruence|].
      intros [_ Hnot]. destruct Hnot. in_log.
    + intros H; destruct Hst; congruence.
    + done.
    + destruct Hst as [-> | ->]; in_log.
  - rewrite (run_elsewhere w req Hreq). unfold to_screenshot in Hreq.
    destruct (target req) as [pathname query|e]; [|done].
    destruct (String.eqb (method req) "OPTIONS") eqn:Hm.
    { apply String.eqb_eq in Hm. eexists. split; [done|].
      split_and!; try done; [split; [done|by intros []]|in_log]. }
    apply String.eqb_neq in Hm. cbn [negb andb] in Hreq.
    destruct (String.eqb pathname "/health") eqn:Hh.
    { apply String.eqb_eq in Hh. eexists. split; [done|].
      split_and!; try done; [split; [done|]|in_log].
      intros [_ Hnot]. destruct Hnot. rewrite Hh. in_log. }
    apply String.eqb_neq in Hh. cbn [negb andb] in Hreq. apply String.eqb_neq in Hreq.
    destruct (String.eqb pathname "/") eqn:Hr.
    { apply String.eqb_eq in Hr. eexists. split; [done|].
      split_and!; try done; [split; [done|]|in_log].
      intros [_ Hnot]. destruct Hnot. rewrite Hr. in_log. }
    apply String.eqb_neq in Hr. eexists. split; [done|].
    split_and!; try done; [|in_log]. split; [|done].
    intros _. split; [done|]. rewrite !not_elem_of_cons. split_and!; try done.
    apply not_elem_of_nil.
Qed.



(** Look the CORS headers up in a response that is written out. *)
Ltac cors_kept := repeat constructor; vm_compute; reflexivity.

Lemma to_screenshot_parsed req : to_screenshot req = true -> thrown req = None.
Proof. unfold to_screenshot, thrown. by destruct (target req). Qed.

(** X7.  Every answer carries the three CORS headers, whatever the route, the
    outcome of the capture or the behaviour of the browser; none of the
    branches of the handler drops or overwrites them.  The one request that
    gets no answer is that whose target [url.parse] cannot parse. *)
Theorem cors_headers_on_every_answer (w : world) (req : request) :
  match thrown req with
  | Some e => run w [] (handler req fresh_response) = ([], Rejected e)
  | None =>
      exists res, (run w [] (handler req fresh_response)).2 = Resolved res /\
        Forall (fun kv => headers res !! kv.1 = Some kv.2) cors_headers
  end.
Proof.
  destruct (to_screenshot req) eqn:Hreq.
  - rewrite (to_screenshot_parsed req Hreq).
    destruct (read_options_pure req) as [[options Hopt]|[e Hopt]].
    + rewrite (run_screenshot_reply w req options Hreq Hopt). eexists. split; [done|].
      cbn [snd].
      destruct ((run w [] (capture options)).2) as [r|e]; cbn [response_to];
        [|cors_kept].
      unfold delivery. destruct (wants_json options); [cors_kept|].
      destruct (known_type options); cors_kept.
    + rewrite (run_screenshot_thrown w req e Hreq Hopt). eexists. split; [done|].
      cors_kept.
  - rewrite (run_elsewhere w req Hreq). unfold thrown.
    destruct (target req) as [pathname query|e]; [|done].
    repeat case_match; (eexists; split; [done|]); cors_kept.
Qed.

Lemma capture_result_facts options :
  always (capture options) (fun tr o =>
    forall r, o = Resolved r ->
      url (metadata r) = field options "targetUrl" /\
      format (metadata r) = or_default (field options "format") (JStr "png") /\
      mobile (metadata r) = or_default (field options "mobile") (JBool false) /\
      size (metadata r) = Z.of_nat (length (data r)) /\
      Some (data r) ∈ captured <$> tr /\
      Some (title (metadata r)) ∈ page_title <$> tr /\
      (if strict_eq (or_default (field options "format") (JStr "png")) (JStr "pdf")
       then Exists (fun ev => is_pdf ev = true) tr
       else Some (true,
                  if strict_eq (or_default (field options "format") (JStr "png"))
                       (JStr "jpeg") then "jpeg" else "png",
                  if strict_eq (or_default (field options "format") (JStr "png"))
                       (JStr "jpeg") then Some 85 else None) ∈ shot <$> tr)).
Proof.
  unfold capture.
  destruct (strict_eq (or_default (field options "format") (JStr "png")) (JStr "pdf")) eqn:Hpdf;
  destruct (strict_eq (or_default (field options "format") (JStr "png")) (JStr "jpeg")) eqn:Hjpeg.
  all: walk.
  all: intros r Hr; simplify_eq; split_and!; try done.
  all: try (cbn [fmap list_fmap captured page_title shot];
            repeat first [apply list_elem_of_here | apply list_elem_of_further]).
  all: repeat first [by apply Exists_cons_hd | apply Exists_cons_tl].
Qed.

Lemma run_screenshot_outcome w req options :
  to_screenshot req = true ->
  read_options req = Ret options ->
  let tr := (run w [] (handler req fresh_response)).1 in
  exists oc, (run w [] (handler req fresh_response)).2 = Resolved (response_to options oc) /\
    match oc with
    | Resolved r =>
        truthy (given_url req) = true /\ omap rejection tr = [] /\
        url (metadata r) = given_url req /\
        format (metadata r) = or_default (field options "format") (JStr "png") /\
        mobile (metadata r) = or_default (field options "mobile") (JBool false) /\
        size (metadata r) = Z.of_nat (length (data r)) /\
        Some (data r) ∈ captured <$> tr /\
        Some (title (metadata r)) ∈ page_title <$> tr /\
        (if strict_eq (or_default (field options "format") (JStr "png")) (JStr "pdf")
         then Exists (fun ev => is_pdf ev = true) tr
         else Some (true,
                    if strict_eq (or_default (field options "format") (JStr "png"))
                         (JStr "jpeg") then "jpeg" else "png",
                    if strict_eq (or_default (field options "format") (JStr "png"))
                         (JStr "jpeg") then Some 85 else None) ∈ shot <$> tr)
    | Rejected e =>
        if truthy (given_url req)
        then last (omap rejection tr) = Some e
        else tr = [] /\ e = Error "URL is required"
    end.
Proof.
  intros Hreq Hopt. rewrite (run_screenshot_reply w req options Hreq Hopt). cbn [fst snd].
  pose proof (always_run0 _ _ w (capture_outcome options)) as Hout.
  pose proof (always_run0 _ _ w (capture_result_facts options)) as Hfacts.
  rewrite (read_options_given req options Hopt) in Hout.
  exists (run w [] (capture options)).2. split; [done|].
  destruct ((run w [] (capture options)).2) as [r|e]; [|done].
  destruct Hout as [? ?]. destruct (Hfacts r eq_refl) as (Hu & ? & ? & ? & ? & ? & ?).
  rewrite (read_options_given req options Hopt) in Hu. done.
Qed.





(** ** Numbers written out *)

Lemma pretty_N_go_head (x : N) (s : string) :
  (0 < x)%N ->
  exists a s', pretty_N_go x s = String a s' /\
    ((48 <=? nat_of_ascii a) && (nat_of_ascii a <=? 57))%nat = true.
Proof.
  revert s. induction (N.lt_wf_0 x) as [x _ IH]; intros s Hx.
  rewrite pretty_N_go_step by done.
  destruct (decide (x `div` 10 = 0)%N) as [Hd|Hd].
  - rewrite Hd, pretty_N_go_0. eexists _, _. split; [done|].
    unfold pretty_N_char. repeat case_match; reflexivity.
  - apply IH; [by apply N.div_lt|by apply N.neq_0_lt_0].
Qed.

Lemma pretty_Z_head (n : Z) :
  exists a s, pretty n = String a s /\
    (((48 <=? nat_of_ascii a) && (nat_of_ascii a <=? 57))%nat = true \/ a = "-"%char).
Proof.
  destruct n as [|p|p]; unfold pretty, pretty_Z.
  - eexists _, _. split; [done|]. by left.
  - unfold pretty, pretty_positive, pretty, pretty_N. case_decide; [done|].
    destruct (pretty_N_go_head (N.pos p) "") as (a & s & -> & ?); [lia|]. eauto.
  - eexists _, _. split; [done|]. by right.
Qed.

Lemma ToString_letters v a s :
  is_array v = false ->
  ToString v = String a s ->
  ((97 <=? nat_of_ascii a) && (nat_of_ascii a <=? 122))%nat = true ->
  v = JStr (String a s) \/ v ∈ [JUndef; JNull; JBool true; JBool false].
Proof.
  destruct v as [| |[]|n|s'|items]; cbn [ToString is_array]; intros Harr H Ha.
  - right. in_log.
  - right. in_log.
  - right. in_log.
  - right. in_log.
  - destruct (pretty_Z_head n) as (a' & s'' & Hn & Hhead). rewrite Hn in H.
    simplify_eq. destruct Hhead as [Hd| ->]; [|done].
    apply andb_prop in Hd as [_ Hd%Nat.leb_le]. apply andb_prop in Ha as [Ha%Nat.leb_le _].
    lia.
  - left. by subst.
  - discriminate Harr.
Qed.

Lemma format_key_named f s :
  is_array f = false ->
  ToString (js_or f (JStr "png")) = s -> s ∈ ["pdf"; "jpeg"] ->
  or_default f (JStr "png") = JStr s.
Proof.
  intros Harr Hkey Hs.
  assert (Harr' : is_array (js_or f (JStr "png")) = false).
  { unfold js_or. by destruct (truthy f). }
  assert (Hv : js_or f (JStr "png") = JStr s).
  { repeat (apply elem_of_cons in Hs as [->|Hs]); [..|by inversion Hs].
    all: destruct (ToString_letters _ _ _ Harr' Hkey) as [?|Hin]; [reflexivity|done|].
    all: repeat (apply elem_of_cons in Hin as [Hin|Hin]; [rewrite Hin in Hkey; done|]).
    all: by inversion Hin. }
  unfold js_or in Hv. destruct (truthy f) eqn:Ht.
  - subst f. done.
  - repeat (apply elem_of_cons in Hs as [->|Hs]); [..|by inversion Hs]; done.
Qed.

(** An array is no string: [capture] takes it for neither [pdf] nor
    [jpeg]. *)
Lemma format_array f :
  is_array f = true ->
  strict_eq (or_default f (JStr "png")) (JStr "pdf") = false /\
  strict_eq (or_default f (JStr "png")) (JStr "jpeg") = false.
Proof. by destruct f. Qed.

Lemma format_key_png f :
  ToString (js_or f (JStr "png")) = "png" ->
  or_default f (JStr "png") <> JStr "pdf" /\ or_default f (JStr "png") <> JStr "jpeg".
Proof.
  intros Hkey. split; intros Heq; destruct f; simplify_eq/=.
Qed.

Lemma binary_content_type ct r :
  headers (binary_reply ct r) !! "Content-Type" = Some ct.
Proof. reflexivity. Qed.

(** ** What a 200 carries *)

(** X10.  In a binary 200 the [Content-Type] is the entry of the table under
    the key [options.format || 'png'].  When the [format] of the request is
    not an array it names what was captured: [application/pdf] only after a
    [page.pdf] call, [image/jpeg] only after a JPEG screenshot of quality 85,
    [image/png] only after a PNG screenshot, the handler falling back on PNG
    with [||] and [capture] with a default that applies to [undefined] only.
    When it is an array, what was captured is a PNG screenshot whatever the
    header says: the lookup makes the array the string of its elements,
    while [capture] compares it with [===]. *)
Theorem content_type_names_capture (w : world) (req : request) (options : Options) :
  to_screenshot req = true ->
  read_options req = Ret options ->
  wants_json options = false ->
  let tr := (run w [] (handler req fresh_response)).1 in
  forall res, (run w [] (handler req fresh_response)).2 = Resolved res ->
    statusCode res = 200 ->
    headers res !! "Content-Type"
      = Some (contentType (js_or (field options "format") (JStr "png"))) /\
    (is_array (field options "format") = false ->
     forall ct, headers res !! "Content-Type" = Some ct ->
       (ct = HVal (JStr "application/pdf") -> Exists (fun ev => is_pdf ev = true) tr) /\
       (ct = HVal (JStr "image/jpeg") -> Some (true, "jpeg", Some 85) ∈ shot <$> tr) /\
       (ct = HVal (JStr "image/png") -> Some (true, "png", None) ∈ shot <$> tr)) /\
    (is_array (field options "format") = true ->
     Some (true, "png", None) ∈ shot <$> tr).
Proof.
  intros Hreq Hopt Hjson tr res Hres Hst.
  destruct (run_screenshot_outcome w req options Hreq Hopt) as (oc & Hrun & Hoc).
  fold tr in Hoc. rewrite Hrun in Hres. injection Hres as <-.
  destruct oc as [r|e]; cbn [response_to] in *; [|done].
  unfold delivery in *. rewrite Hjson in *.
  destruct (known_type options); [|done].
  destruct Hoc as (_ & _ & _ & _ & _ & _ & _ & _ & Hshot).
  split; [apply binary_content_type|]. split.
  - intros Harr ct Hct. rewrite binary_content_type in Hct. injection Hct as <-.
    unfold contentType.
    destruct (String.eqb _ "png") eqn:Hpng; [|destruct (String.eqb _ "jpeg") eqn:Hjpeg;
      [|destruct (String.eqb _ "pdf") eqn:Hpdf]].
    + apply String.eqb_eq in Hpng. destruct (format_key_png _ Hpng) as [H1 H2].
      rewrite (strict_eq_false _ _ H1), (strict_eq_false _ _ H2) in Hshot.
      split_and!; [done|done|by intros _].
    + apply String.eqb_eq in Hjpeg.
      pose proof (format_key_named _ _ Harr Hjpeg) as Hf. rewrite Hf in Hshot by in_log.
      split_and!; [done|by intros _|done].
    + apply String.eqb_eq in Hpdf.
      pose proof (format_key_named _ _ Harr Hpdf) as Hf. rewrite Hf in Hshot by in_log.
      split_and!; [by intros _|done|done].
    + case_bool_decide; split_and!; done.
  - intros Harr. destruct (format_array _ Harr) as [H1 H2]. by rewrite H1, H2 in Hshot.
Qed.

(** A JSON body with the [format] in an array: [capture] takes a PNG
    screenshot, and the handler sends it as [application/pdf]. *)
Example array_format_is_mislabelled :
  let req := Sample.post {["url" := JStr "https://example.com";
                           "format" := JArr [JStr "pdf"]]} in
  let tr := (run Sample.happy [] (handler req fresh_response)).1 in
  let res := sent Sample.happy req in
  statusCode res = 200 /\
  headers res !! "Content-Type" = Some (HVal (JStr "application/pdf")) /\
  body res = Some (Binary Sample.png) /\
  omap shot tr = [(true, "png", None)] /\
  existsb is_pdf tr = false.
Proof. split_and!; vm_compute; reflexivity. Qed.

(** ** The title in a header *)

Lemma encodeURIComponent_cons a s :
  encodeURIComponent (String a s) = encode_char a (encodeURIComponent s).
Proof. unfold encode_char. cbn [encodeURIComponent]. by destruct (unreserved a). Qed.

Lemma encode_char_visible a rest :
  string_forall visible (encode_char a rest) = string_forall visible rest.
Proof.
  destruct a as [[] [] [] [] [] [] [] []]; reflexivity.
Qed.

Lemma percent_decode_plain a r :
  a <> "%"%char -> percent_decode (String a r) = String a <$> percent_decode r.
Proof.
  destruct a as [[] [] [] [] [] [] [] []]; intros Ha; try reflexivity. done.
Qed.

Lemma percent_decode_escape h l r :
  percent_decode (String "%" (String h (String l r))) =
    match unhex h, unhex l, percent_decode r with
    | Some x, Some y, Some s => Some (String (ascii_of_nat (16 * x + y)) s)
    | _, _, _ => None
    end.
Proof. reflexivity. Qed.

Lemma hex_digits_back a :
  let n := nat_of_ascii a in
  unhex (hex_digit (n / 16)) = Some (n / 16)%nat /\
  unhex (hex_digit (n mod 16)) = Some (n mod 16)%nat /\
  ascii_of_nat (16 * (n / 16) + n mod 16) = a.
Proof.
  destruct a as [[] [] [] [] [] [] [] []]; vm_compute; done.
Qed.

Lemma encode_char_decode a rest :
  percent_decode (encode_char a rest) = String a <$> percent_decode rest.
Proof.
  unfold encode_char. destruct (unreserved a) eqn:Hu.
  - apply percent_decode_plain. intros ->. vm_compute in Hu. discriminate.
  - rewrite percent_decode_escape.
    destruct (hex_digits_back a) as (-> & -> & ->). by destruct (percent_decode rest).
Qed.

Lemma encodeURIComponent_visible s :
  string_forall visible (encodeURIComponent s) = true.
Proof.
  induction s as [|a s IH]; [done|].
  by rewrite encodeURIComponent_cons, encode_char_visible.
Qed.

Lemma encodeURIComponent_decode s :
  percent_decode (encodeURIComponent s) = Some s.
Proof.
  induction s as [|a s IH]; [done|].
  by rewrite encodeURIComponent_cons, encode_char_decode, IH.
Qed.

Lemma or_default_defined v d : d <> JUndef -> or_default v d <> JUndef.
Proof. by destruct v. Qed.

Lemma truthy_defined v : truthy v = true -> v <> JUndef.
Proof. by intros H ->. Qed.

Lemma json_reply_body r :
  url (metadata r) <> JUndef -> format (metadata r) <> JUndef ->
  mobile (metadata r) <> JUndef ->
  body (json_reply r) =
    Some (Json [("url", JV (url (metadata r))); ("format", JV (format (metadata r)));
                ("pageWidth", JV (JNum (pageWidth (metadata r))));
                ("pageHeight", JV (JNum (pageHeight (metadata r))));
                ("title", JV (JStr (title (metadata r))));
                ("viewport", JV (JStr (viewport (metadata r))));
                ("mobile", JV (mobile (metadata r)));
                ("timestamp", JV (JStr (timestamp (metadata r))));
                ("size", JV (JNum (size (metadata r))));
                ("data", JBase64 (data r))]).
Proof.
  intros Hu Hf Hm. unfold json_reply, stringify. cbn [body].
  by destruct (url (metadata r)), (format (metadata r)), (mobile (metadata r)).
Qed.

Lemma screenshot_200 w req :
  to_screenshot req = true ->
  let tr := (run w [] (handler req fresh_response)).1 in
  forall res, (run w [] (handler req fresh_response)).2 = Resolved res ->
    statusCode res = 200 ->
    exists options r,
      read_options req = Ret options /\
      Some (data r) ∈ captured <$> tr /\
      Some (title (metadata r)) ∈ page_title <$> tr /\
      size (metadata r) = Z.of_nat (length (data r)) /\
      url (metadata r) = given_url req /\
      url (metadata r) <> JUndef /\ format (metadata r) <> JUndef /\
      mobile (metadata r) <> JUndef /\
      ((wants_json options = true /\ res = json_reply r) \/
       (wants_json options = false /\ known_type options = true /\
        res = binary_reply (contentType (js_or (field options "format") (JStr "png"))) r)).
Proof.
  intros Hreq tr res Hres Hst.
  destruct (read_options_pure req) as [[options Hopt]|[e Hopt]].
  - destruct (run_screenshot_outcome w req options Hreq Hopt) as (oc & Hrun & Hoc).
    fold tr in Hoc. rewrite Hrun in Hres. injection Hres as <-.
    destruct oc as [r|e]; cbn [response_to] in *; [|done].
    destruct Hoc as (Hu & _ & Hurl & Hf & Hm & Hsize & Hdata & Htitle & _).
    exists options, r. split_and!; try done.
    + rewrite Hurl. by apply truthy_defined.
    + rewrite Hf. by apply or_default_defined.
    + rewrite Hm. by apply or_default_defined.
    + unfold delivery in *. destruct (wants_json options); [by left|].
      destruct (known_type options); [by right|done].
  - rewrite (run_screenshot_thrown w req e Hreq Hopt) in Hres.
    injection Hres as <-. discriminate Hst.
Qed.

(** X11.  A 200 announces the size of what it carries, and carries what the
    browser gave: sent as binary, its [Content-Length] is the byte length of
    the body; sent as JSON, its [size] field is the byte length of the bytes
    behind [data]; either way the bytes are those a capture call of this
    request resolved with. *)
Theorem announced_size_is_payload_length (w : world) (req : request) :
  to_screenshot req = true ->
  let tr := (run w [] (handler req fresh_response)).1 in
  forall res, (run w [] (handler req fresh_response)).2 = Resolved res ->
    statusCode res = 200 ->
    exists b, Some b ∈ captured <$> tr /\
      ((body res = Some (Binary b) /\
        headers res !! "Content-Length" = Some (HVal (JNum (Z.of_nat (length b))))) \/
       (exists fields, body res = Some (Json fields) /\
          json_get "data" fields = Some (JBase64 b) /\
          json_get "size" fields = Some (JV (JNum (Z.of_nat (length b)))))).
Proof.
  intros Hreq tr res Hres Hst.
  destruct (screenshot_200 w req Hreq res Hres Hst)
    as (options & r & _ & Hdata & _ & Hsize & _ & Hu & Hf & Hm & Hres').
  exists (data r). split; [done|].
  destruct Hres' as [[_ ->]|(_ & _ & ->)].
  - right. eexists. split; [by apply json_reply_body|]. rewrite Hsize. done.
  - left. done.
Qed.

(** X12.  A JSON 200 always has the same ten fields, in the same order, and no
    [success] field: [JSON.stringify] drops a field whose value is
    [undefined], and none of the fields of the metadata ever is. *)
Theorem json_answer_has_ten_fields (w : world) (req : request) (options : Options) :
  to_screenshot req = true ->
  read_options req = Ret options ->
  wants_json options = true ->
  forall res, (run w [] (handler req fresh_response)).2 = Resolved res ->
    statusCode res = 200 ->
    json_keys res = Some ["url"; "format"; "pageWidth"; "pageHeight"; "title";
                          "viewport"; "mobile"; "timestamp"; "size"; "data"] /\
    headers res !! "Content-Type" = Some (HVal (JStr "application/json")).
Proof.
  intros Hreq Hopt Hjson res Hres Hst.
  destruct (screenshot_200 w req Hreq res Hres Hst)
    as (options' & r & Hopt' & _ & _ & _ & _ & Hu & Hf & Hm & Hres').
  rewrite Hopt in Hopt'. injection Hopt' as <-.
  destruct Hres' as [[_ ->]|(Hno & _)]; [|congruence].
  unfold json_keys. rewrite (json_reply_body r Hu Hf Hm). done.
Qed.

(** X13.  The title of the page, which the page chooses, cannot break out of the
    [X-Page-Title] header of a binary 200: the header holds the title
    percent-encoded, every character of it visible ASCII (no line break, no
    control character, no space), and percent-decoding gives the title
    back. *)
Theorem page_title_header_is_safe (w : world) (req : request) (options : Options) :
  to_screenshot req = true ->
  read_options req = Ret options ->
  wants_json options = false ->
  let tr := (run w [] (handler req fresh_response)).1 in
  forall res, (run w [] (handler req fresh_response)).2 = Resolved res ->
    statusCode res = 200 ->
    exists t encoded,
      Some t ∈ page_title <$> tr /\
      headers res !! "X-Page-Title" = Some (HVal (JStr encoded)) /\
      string_forall visible encoded = true /\
      percent_decode encoded = Some t.
Proof.
  intros Hreq Hopt Hjson tr res Hres Hst.
  destruct (screenshot_200 w req Hreq res Hres Hst)
    as (options' & r & Hopt' & _ & Htitle & _ & _ & _ & _ & _ & Hres').
  rewrite Hopt in Hopt'. injection Hopt' as <-.
  destruct Hres' as [[Hyes _]|(_ & _ & ->)]; [congruence|].
  exists (title (metadata r)), (encodeURIComponent (title (metadata r))).
  split_and!; [done|reflexivity|apply encodeURIComponent_visible
              |apply encodeURIComponent_decode].
Qed.

(** ** After a batch *)

Lemma held_idle requests ms logs :
  Forall3 (fun req m log => follows (handler req fresh_response) log m)
    requests ms logs ->
  (forall i m, ms !! i = Some m -> pending m = false) ->
  held logs = ∅.
Proof.
  induction 1 as [|req m log requests ms logs Hslot _ IH]; intros Hidle; [done|].
  cbn [held foldr].
  change (foldr (fun log acc => open_pages log ⊎ acc) ∅ logs) with (held logs).
  rewrite (slot_idle req log m Hslot (Hidle 0%nat m eq_refl)).
  rewrite IH; [multiset_solver|]. intros i m' Hi. by apply (Hidle (S i) m').
Qed.

(** X14.  Once every request of a batch has been answered the browser has no page
    open, however the handlers interleaved, whichever of them failed and
    whatever the browser answered: the pages of all the attempts have been
    closed. *)
Theorem no_page_open_after_batch (requests : list request) (s : server) :
  rtc sstep (boot requests) s ->
  (forall s', ~ sstep s s') ->
  pages s = ∅.
Proof.
  intros (logs & Hall & ->)%serving_reachable Hstuck.
  apply (held_idle requests (inflight s) logs Hall).
  intros i m Hi. destruct (pending m) eqn:Hm; [|done].
  destruct (pending_hstep m Hm) as (ev & m' & Hstep).
  destruct (Hstuck _ (sstep_handler s i m ev m' Hi Hstep)).
Qed.

(** X16.  A batch in which the target of every request parses: however the
    handlers interleave and whatever the browser answers, the batch comes to
    an end; no exception ever leaves a handler, so no request takes the
    process and its siblings down; every slot is the handler of its own
    request after a log of its own, and once it has returned, its response
    answers that request, a failure being a 500 whose [error] is the message
    of a call rejected in that very log; and when nothing can move any more,
    every request has its response. *)
Theorem parsed_batch_answers_each_request (requests : list request) (s : server) :
  Forall (fun req => thrown req = None) requests ->
  rtc sstep (boot requests) s ->
  terminating s /\
  ~ crashed s /\
  Forall2 (fun req m =>
    exists log, follows (handler req fresh_response) log m /\
      forall res, m = Ret res -> answers req log res) requests (inflight s) /\
  ((forall s', ~ sstep s s') ->
   Forall2 (fun req m => exists res, m = Ret res) requests (inflight s)).
Proof.
  intros Hparsed (logs & Hall & _)%serving_reachable.
  split; [apply server_terminating|]. split; [|split].
  - intros (i & e & Hi).
    destruct (Forall3_lookup_m _ _ _ _ _ _ Hall Hi) as (req & log & Hreq & _ & Hslot).
    destruct (slot_never_throws req log e); [|done].
    rewrite Forall_forall in Hparsed. apply Hparsed.
    by apply list_elem_of_lookup_2 in Hreq.
  - revert Hparsed.
    induction Hall as [|req m log requests ms logs Hslot _ IH]; intros Hparsed;
      constructor; [|by apply IH, (Forall_inv_tail Hparsed)].
    exists log. split; [done|]. intros res ->.
    by apply (slot_answered req log res (Forall_inv Hparsed)).
  - intros Hstuck.
    assert (Hidle : forall i m, inflight s !! i = Some m -> pending m = false).
    { intros i m Hi. destruct (pending m) eqn:Hm; [|done].
      destruct (pending_hstep m Hm) as (ev & m' & Hstep).
      destruct (Hstuck _ (sstep_handler s i m ev m' Hi Hstep)). }
    by eapply idle_slots_answered.
Qed.

(** ** Numbers in a query string *)

Lemma pretty_N_char_digit (d : N) :
  (d < 10)%N ->
  decimal_digit (pretty_N_char d) = true /\
  Scan.digit_val 10 (pretty_N_char d) = Some (Z.of_N d).
Proof.
  intros Hd.
  assert (d = 0 \/ d = 1 \/ d = 2 \/ d = 3 \/ d = 4 \/ d = 5 \/ d = 6 \/ d = 7
          \/ d = 8 \/ d = 9)%N as Hcases by lia.
  repeat (destruct Hcases as [->|Hcases]); try subst d; by vm_compute.
Qed.

Lemma pretty_N_go_digits (x : N) (s : string) :
  string_forall decimal_digit s = true ->
  string_forall decimal_digit (pretty_N_go x s) = true.
Proof.
  revert s. induction (N.lt_wf_0 x) as [x _ IH]; intros s Hs.
  destruct (decide (x = 0)%N) as [->|Hx]; [by rewrite pretty_N_go_0|].
  rewrite pretty_N_go_step by lia. apply IH; [apply N.div_lt; lia|].
  cbn [string_forall]. rewrite Hs.
  destruct (pretty_N_char_digit (x `mod` 10)) as [-> _]; [|done].
  by apply N.mod_lt.
Qed.

Lemma digits_String radix a s acc d :
  Scan.digit_val radix a = Some d ->
  Scan.digits radix (String a s) acc = Scan.digits radix s (Some (radix * default 0 acc + d)).
Proof. intros H. cbn [Scan.digits]. by rewrite H. Qed.

Lemma pretty_N_go_value (x : N) :
  (0 < x)%N ->
  exists k, 0 <= k /\ forall s acc,
    Scan.digits 10 (pretty_N_go x s) acc
    = Scan.digits 10 s (Some (10 ^ k * default 0 acc + Z.of_N x)).
Proof.
  induction (N.lt_wf_0 x) as [x _ IH]; intros Hx.
  destruct (pretty_N_char_digit (x `mod` 10)) as [_ Hd]; [by apply N.mod_lt|].
  assert (Hdm : Z.of_N x = 10 * Z.of_N (x `div` 10) + Z.of_N (x `mod` 10)).
  { rewrite (N.div_mod x 10) at 1 by done. lia. }
  destruct (decide (x `div` 10 = 0)%N) as [H0|H0].
  - exists 1. split; [lia|]. intros s acc.
    rewrite pretty_N_go_step, H0, pretty_N_go_0 by done.
    rewrite (digits_String _ _ _ _ _ Hd). do 2 f_equal. rewrite H0 in Hdm. lia.
  - destruct (IH (x `div` 10)%N) as (k & Hk & Hval);
      [by apply N.div_lt|by apply N.neq_0_lt_0|].
    exists (k + 1). split; [lia|]. intros s acc.
    rewrite pretty_N_go_step, Hval by done.
    rewrite (digits_String _ _ _ _ _ Hd). do 2 f_equal. cbn [default].
    rewrite Hdm, Z.pow_add_r by lia. unfold id. change (10 ^ 1) with 10. ring.
Qed.

Lemma pretty_N_go_nonzero_head (x : N) (s : string) :
  (0 < x)%N ->
  exists a s', pretty_N_go x s = String a s' /\
    decimal_digit a = true /\ a <> "0"%char.
Proof.
  revert s. induction (N.lt_wf_0 x) as [x _ IH]; intros s Hx.
  rewrite pretty_N_go_step by done.
  destruct (decide (x `div` 10 = 0)%N) as [Hd|Hd].
  - rewrite Hd, pretty_N_go_0. eexists _, _. split; [done|].
    assert (x `mod` 10 = x)%N as -> by (apply N.mod_small, N.div_small_iff; [done|lia]).
    assert (x < 10)%N by (apply N.div_small_iff; [done|lia]).
    assert (x = 1 \/ x = 2 \/ x = 3 \/ x = 4 \/ x = 5 \/ x = 6 \/ x = 7
            \/ x = 8 \/ x = 9)%N as Hcases by lia.
    repeat (destruct Hcases as [->|Hcases]); try subst x; by vm_compute.
  - apply IH; [by apply N.div_lt|by apply N.neq_0_lt_0].
Qed.

Lemma digit_head a s :
  decimal_digit a = true -> a <> "0"%char ->
  Scan.split_sign (String a s) = (1, String a s) /\
  Scan.split_radix (String a s) = (10, String a s) /\
  non_decimal (String a s) = None /\
  String.eqb (String a s) "Infinity" = false.
Proof.
  destruct a as [[] [] [] [] [] [] [] []]; intros Hd Hz;
    vm_compute in Hd; try discriminate Hd; try (by destruct Hz); done.
Qed.

Lemma digit_char a :
  decimal_digit a = true ->
  Scan.is_ws a = false /\ is_Some (Scan.digit_val 10 a).
Proof.
  destruct a as [[] [] [] [] [] [] [] []]; intros Hd;
    vm_compute in Hd; try discriminate Hd; split; try reflexivity; by eexists.
Qed.

Lemma pretty_pos_shape (p : positive) :
  exists a s, pretty (N.pos p) = String a s /\
    decimal_digit a = true /\ a <> "0"%char /\
    string_forall decimal_digit (String a s) = true /\
    Scan.digits 10 (String a s) None = Some (Z.pos p).
Proof.
  unfold pretty, pretty_N. case_decide; [done|].
  destruct (pretty_N_go_nonzero_head (N.pos p) "") as (a & s & Heq & Hd & Hz); [lia|].
  exists a, s. split; [done|]. split; [done|]. split; [done|].
  rewrite <- Heq. split; [by apply pretty_N_go_digits|].
  destruct (pretty_N_go_value (N.pos p)) as (k & _ & Hval); [lia|].
  rewrite Hval. cbn; first [done|f_equal; lia].
Qed.

Lemma rev_app_rev_app s t u :
  String.rev_app (String.rev_app s t) u = String.rev_app t (s +:+ u).
Proof.
  revert t u. induction s as [|a s IH]; intros t u; [done|].
  cbn [String.rev_app]. by rewrite IH.
Qed.

Lemma string_app_empty s : s +:+ "" = s.
Proof.
  induction s as [|a s IH]; [done|].
  change (String a (s +:+ "") = String a s). by rewrite IH.
Qed.

Lemma string_rev_rev s : String.rev (String.rev s) = s.
Proof.
  unfold String.rev. rewrite rev_app_rev_app. cbn [String.rev_app].
  apply string_app_empty.
Qed.

Lemma rev_app_forall f s t :
  string_forall f (String.rev_app s t) = string_forall f s && string_forall f t.
Proof.
  revert t. induction s as [|a s IH]; intros t; [done|].
  cbn [String.rev_app string_forall]. rewrite IH. cbn [string_forall].
  by destruct (f a), (string_forall f s), (string_forall f t).
Qed.

Lemma string_forall_impl (f g : ascii -> bool) s :
  (forall a, f a = true -> g a = true) ->
  string_forall f s = true -> string_forall g s = true.
Proof.
  intros Hfg. induction s as [|a s IH]; [done|]. cbn [string_forall].
  intros [Ha Hs]%andb_prop. by rewrite (Hfg a Ha), IH.
Qed.

Lemma all_digits_decimal s :
  string_forall decimal_digit s = true -> Scan.all_digits 10 s = true.
Proof.
  induction s as [|a s IH]; [done|]. cbn [string_forall Scan.all_digits].
  intros [Ha Hs]%andb_prop. rewrite (IH Hs), andb_true_r.
  apply bool_decide_eq_true. by apply digit_char.
Qed.

Lemma numeral_char_ascii a :
  numeral_char a = true -> Scan.is_ws a = false /\ (nat_of_ascii a < 128)%nat.
Proof.
  destruct a as [[] [] [] [] [] [] [] []]; intros Ha;
    vm_compute in Ha; try discriminate Ha; split; try reflexivity; vm_compute; lia.
Qed.

Lemma is_ws2_ascii b a : (nat_of_ascii a < 128)%nat -> Scan.is_ws2 b a = false.
Proof.
  intros Ha. unfold Scan.is_ws2.
  assert ((nat_of_ascii a =? 160)%nat = false) as -> by (apply Nat.eqb_neq; lia).
  apply andb_false_r.
Qed.

Lemma is_ws3_ascii c b a : (nat_of_ascii a < 128)%nat -> Scan.is_ws3 c b a = false.
Proof.
  intros Ha. unfold Scan.is_ws3.
  assert (Hne : forall k, (128 <= k)%nat -> (nat_of_ascii a =? k)%nat = false)
    by (intros k Hk; apply Nat.eqb_neq; lia).
  rewrite !Hne by lia.
  assert ((128 <=? nat_of_ascii a)%nat = false) as -> by (apply Nat.leb_gt; lia).
  cbn [andb orb]. by rewrite !andb_false_r.
Qed.

(** A numeral has no white space to skip, in front or at the end. *)
Lemma skip_ws_numeral a s :
  numeral_char a = true -> Scan.skip_ws (String a s) = String a s.
Proof.
  destruct a as [[] [] [] [] [] [] [] []]; intros Ha;
    vm_compute in Ha; try discriminate Ha; by destruct s as [|b [|c s]].
Qed.

Lemma skip_ws_back_numeral a s :
  numeral_char a = true -> Scan.skip_ws_back (String a s) = String a s.
Proof.
  intros [Hws Ha]%numeral_char_ascii.
  destruct s as [|b [|c s]]; cbn [Scan.skip_ws_back]; rewrite Hws;
    by rewrite ?is_ws2_ascii, ?is_ws3_ascii.
Qed.

Lemma rev_numeral a s :
  string_forall numeral_char (String a s) = true ->
  exists b s', String.rev (String a s) = String b s' /\ numeral_char b = true.
Proof.
  intros Hall.
  assert (Hrev : string_forall numeral_char (String.rev (String a s)) = true).
  { unfold String.rev. by rewrite rev_app_forall, Hall. }
  destruct (String.rev (String a s)) as [|b s'] eqn:Heq.
  - apply (f_equal String.rev) in Heq. rewrite string_rev_rev in Heq. discriminate Heq.
  - exists b, s'. split; [done|]. by apply andb_prop in Hrev as [? _].
Qed.

Lemma trim_numeral a s :
  string_forall numeral_char (String a s) = true ->
  Scan.trim (String a s) = String a s.
Proof.
  intros Hall. unfold Scan.trim.
  assert (Ha : numeral_char a = true) by (by apply andb_prop in Hall as [? _]).
  rewrite (skip_ws_numeral a s Ha).
  destruct (rev_numeral a s Hall) as (b & s' & Hrev & Hb).
  rewrite Hrev, (skip_ws_back_numeral b s' Hb), <- Hrev. apply string_rev_rev.
Qed.

Lemma digits_numeral s :
  string_forall decimal_digit s = true -> string_forall numeral_char s = true.
Proof.
  apply string_forall_impl. intros a Ha. unfold numeral_char. by rewrite Ha.
Qed.

Lemma span_digits_all s :
  string_forall decimal_digit s = true -> Scan.span_digits s = (s, EmptyString).
Proof.
  induction s as [|a s IH]; [done|]. cbn [string_forall Scan.span_digits].
  intros [Ha Hs]%andb_prop. rewrite (IH Hs).
  destruct (digit_char a Ha) as [_ Hd]. by rewrite (bool_decide_eq_true_2 _ Hd).
Qed.

Lemma decimal_pretty_pos (p : positive) negative u :
  u = pretty (N.pos p) ->
  (if String.eqb u "Infinity" then Infinity negative
   else
     let '(int, r1) := Scan.span_digits u in
     let '(frac, r2) := match r1 with
                        | String "." r => Scan.span_digits r
                        | _ => (EmptyString, r1)
                        end in
     if String.eqb int "" && String.eqb frac "" then NaN
     else
       match exponent_part r2 with
       | Some e =>
           Finite negative (Scan.value 10 (int +:+ frac)) (e - Z.of_nat (String.length frac))
       | None => NaN
       end) = Finite negative (Z.pos p) 0.
Proof.
  intros ->. destruct (pretty_pos_shape p) as (a & s & -> & Hd & Hz & Hall & Hval).
  destruct (digit_head a s Hd Hz) as (_ & _ & _ & ->).
  rewrite (span_digits_all _ Hall). cbn [String.eqb andb exponent_part].
  replace (String.eqb (String a s) "") with false by (by destruct s).
  cbn [andb]. rewrite string_app_empty. unfold Scan.value. by rewrite Hval.
Qed.

Lemma ToNumber_pretty (n : Z) :
  ToNumber (JStr (pretty n)) = ToNumber (JNum n).
Proof.
  destruct n as [|p|p]; [reflexivity|..].
  - change (pretty (Z.pos p)) with (pretty (N.pos p)).
    cbn [ToNumber]. unfold StringToNumber.
    pose proof (decimal_pretty_pos p false _ eq_refl) as Hdec.
    destruct (pretty_pos_shape p) as (a & s & Heq & Hd & Hz & Hall & _).
    rewrite Heq in *.
    rewrite (trim_numeral a s (digits_numeral _ Hall)).
    destruct (digit_head a s Hd Hz) as (Hsign & _ & -> & _).
    cbn [String.eqb]. unfold decimal. rewrite Hsign. exact Hdec.
  - change (pretty (Z.neg p)) with (String "-" (pretty (N.pos p))).
    cbn [ToNumber]. unfold StringToNumber.
    pose proof (decimal_pretty_pos p true _ eq_refl) as Hdec.
    destruct (pretty_pos_shape p) as (a & s & Heq & Hd & Hz & Hall & _).
    rewrite Heq in *.
    assert (Hnum : string_forall numeral_char (String "-" (String a s)) = true).
    { change (string_forall numeral_char (String a s) = true). by apply digits_numeral. }
    rewrite (trim_numeral _ _ Hnum).
    cbn [String.eqb Ascii.eqb non_decimal]. unfold decimal. cbn [Scan.split_sign].
    exact Hdec.
Qed.

Lemma to_double_exact (n : Z) : Z.abs n < 2 ^ 53 -> to_double n = n.
Proof. intros Hn. unfold to_double. by rewrite (proj2 (Z.ltb_lt _ _) Hn). Qed.

Lemma parseInt_string_pretty (n : Z) :
  Z.abs n < 2 ^ 53 -> parseInt_string (pretty n) = Some n.
Proof.
  intros Hn. destruct n as [|p|p]; [reflexivity|..].
  - change (pretty (Z.pos p)) with (pretty (N.pos p)).
    destruct (pretty_pos_shape p) as (a & s & -> & Hd & Hz & Hall & Hval).
    destruct (digit_head a s Hd Hz) as (Hsign & Hradix & _).
    assert (Ha : numeral_char a = true) by (unfold numeral_char; by rewrite Hd).
    unfold parseInt_string.
    rewrite (skip_ws_numeral a s Ha), Hsign, Hradix, Hval. cbn [fmap option_fmap option_map].
    f_equal. replace (1 * Z.pos p) with (Z.pos p) by lia. by apply to_double_exact.
  - change (pretty (Z.neg p)) with (String "-" (pretty (N.pos p))).
    destruct (pretty_pos_shape p) as (a & s & -> & Hd & Hz & Hall & Hval).
    destruct (digit_head a s Hd Hz) as (_ & Hradix & _).
    unfold parseInt_string. rewrite (skip_ws_numeral "-" _ eq_refl).
    cbn [Scan.split_sign]. rewrite Hradix, Hval. cbn [fmap option_fmap option_map].
    f_equal. replace (-1 * Z.pos p) with (Z.neg p) by lia. by apply to_double_exact.
Qed.

Lemma field_insert_eq (o : Options) k v : field (<[k := v]> o) k = v.
Proof. unfold field. by rewrite lookup_insert_eq. Qed.

Lemma field_insert_ne (o : Options) k k' v :
  k <> k' -> field (<[k := v]> o) k' = field o k'.
Proof. intros H. unfold field. by rewrite lookup_insert_ne. Qed.

Lemma number_as_string (n : Z) :
  Z.abs n < 2 ^ 53 ->
  parseInt (JStr (pretty n)) = parseInt (JNum n) /\
  gt_zero (JStr (pretty n)) = gt_zero (JNum n) /\
  ToString (JStr (pretty n)) = ToString (JNum n).
Proof.
  intros Hn. split_and!; [|unfold gt_zero; by rewrite ToNumber_pretty|done].
  cbn [parseInt ToString]. by apply parseInt_string_pretty.
Qed.

(** X15.  A number may come as its decimal string, as a query string gives it, or
    as a JSON number: for [width], [height], [delay] and [timeout], and an
    integer [n] that a JavaScript number holds exactly, the attempt is the
    same, call for call and field for field.  So [?width=1440] in a GET and
    ["width": 1440] in a POST body drive the browser alike. *)
Theorem numeric_option_as_string (options : Options) (k : string) (n : Z) :
  k ∈ numeric_options ->
  Z.abs n < 2 ^ 53 ->
  capture (<[k := JStr (pretty n)]> options) = capture (<[k := JNum n]> options).
Proof.
  intros Hk Hn. destruct (number_as_string n Hn) as (Hparse & Hgt & Hstr).
  unfold numeric_options in Hk.
  repeat (apply elem_of_cons in Hk as [->|Hk]); [..|by inversion Hk].
  all: unfold capture.
  all: rewrite !field_insert_eq, !field_insert_ne by done.
  all: cbn [or_default].
  all: rewrite ?Hparse, ?Hgt, ?Hstr; reflexivity.
Qed.

(** ** The properties above, at work *)

Lemma serve_iter_reachable w i n s : rtc sstep s (Nat.iter n (serve w i) s).
Proof.
  induction n as [|n IH]; [done|]. cbn [Nat.iter].
  etrans; [exact IH|apply serve_reachable].
Qed.

Lemma idle_stuck s :
  forallb (fun m => negb (pending m)) (inflight s) = true ->
  forall s', ~ sstep s s'.
Proof.
  intros Hidle s' [i m ev m' Hi Hstep].
  rewrite forallb_forall in Hidle.
  assert (Hm : negb (pending m) = true).
  { apply Hidle, list_elem_of_In, list_elem_of_lookup. eauto. }
  destruct m; try discriminate Hm; destruct Hstep.
Qed.




Lemma content_type_names_capture_witness :
  let o : Options := {["url" := JStr "https://example.com";
                       "format" := JArr [JStr "pdf"]]} in
  let req := Sample.post o in
  let options : Options := <["targetUrl" := JStr "https://example.com"]> o in
  let res := sent Sample.happy req in
  to_screenshot req = true /\
  read_options req = Ret options /\
  wants_json options = false /\
  (run Sample.happy [] (handler req fresh_response)).2 = Resolved res /\
  statusCode res = 200 /\
  headers res !! "Content-Type" = Some (HVal (JStr "application/pdf")) /\
  Some (true, "png", None) ∈ shot <$> (run Sample.happy [] (handler req fresh_response)).1.
Proof.
  intros o req options res.
  assert (Hreq : to_screenshot req = true) by reflexivity.
  assert (Hopt : read_options req = Ret options) by reflexivity.
  assert (Hjson : wants_json options = false) by reflexivity.
  assert (Hres : (run Sample.happy [] (handler req fresh_response)).2 = Resolved res)
    by (vm_compute; reflexivity).
  assert (Hst : statusCode res = 200) by (vm_compute; reflexivity).
  do 5 (split; [assumption|]).
  destruct (content_type_names_capture Sample.happy req options Hreq Hopt Hjson
              res Hres Hst) as (Hct & _ & Harr).
  split; [exact Hct|]. apply Harr. reflexivity.
Defined.

Lemma announced_size_is_payload_length_witness :
  let req := Sample.get {["url" := JStr "https://example.com"]} in
  let res := sent Sample.happy req in
  to_screenshot req = true /\
  (run Sample.happy [] (handler req fresh_response)).2 = Resolved res /\
  statusCode res = 200 /\
  exists b, Some b ∈ captured <$> (run Sample.happy [] (handler req fresh_response)).1.
Proof.
  intros req res.
  assert (Hreq : to_screenshot req = true) by reflexivity.
  assert (Hres : (run Sample.happy [] (handler req fresh_response)).2 = Resolved res)
    by (vm_compute; reflexivity).
  assert (Hst : statusCode res = 200) by (vm_compute; reflexivity).
  do 3 (split; [assumption|]).
  destruct (announced_size_is_payload_length Sample.happy req Hreq res Hres Hst)
    as (b & Hb & _).
  exists b. exact Hb.
Defined.

Lemma json_answer_has_ten_fields_witness :
  let q : Options := {["url" := JStr "https://example.com"; "returnJson" := JStr "true"]} in
  let req := Sample.get q in
  let options : Options := <["targetUrl" := JStr "https://example.com"]> q in
  let res := sent Sample.happy req in
  to_screenshot req = true /\
  read_options req = Ret options /\
  wants_json options = true /\
  (run Sample.happy [] (handler req fresh_response)).2 = Resolved res /\
  statusCode res = 200 /\
  headers res !! "Content-Type" = Some (HVal (JStr "application/json")).
Proof.
  intros q req options res.
  assert (Hreq : to_screenshot req = true) by reflexivity.
  assert (Hopt : read_options req = Ret options) by reflexivity.
  assert (Hjson : wants_json options = true) by reflexivity.
  assert (Hres : (run Sample.happy [] (handler req fresh_response)).2 = Resolved res)
    by (vm_compute; reflexivity).
  assert (Hst : statusCode res = 200) by (vm_compute; reflexivity).
  do 5 (split; [assumption|]).
  exact (proj2 (json_answer_has_ten_fields Sample.happy req options Hreq Hopt Hjson
                  res Hres Hst)).
Defined.

Lemma page_title_header_is_safe_witness :
  let q : Options := {["url" := JStr "https://example.com"]} in
  let req := Sample.get q in
  let options : Options := <["targetUrl" := JStr "https://example.com"]> q in
  let res := sent Sample.happy req in
  to_screenshot req = true /\
  read_options req = Ret options /\
  wants_json options = false /\
  (run Sample.happy [] (handler req fresh_response)).2 = Resolved res /\
  statusCode res = 200 /\
  exists encoded, headers res !! "X-Page-Title" = Some (HVal (JStr encoded)) /\
    string_forall visible encoded = true.
Proof.
  intros q req options res.
  assert (Hreq : to_screenshot req = true) by reflexivity.
  assert (Hopt : read_options req = Ret options) by reflexivity.
  assert (Hjson : wants_json options = false) by reflexivity.
  assert (Hres : (run Sample.happy [] (handler req fresh_response)).2 = Resolved res)
    by (vm_compute; reflexivity).
  assert (Hst : statusCode res = 200) by (vm_compute; reflexivity).
  do 5 (split; [assumption|]).
  destruct (page_title_header_is_safe Sample.happy req options Hreq Hopt Hjson
              res Hres Hst) as (t & encoded & _ & Hh & Hv & _).
  exists encoded. exact (conj Hh Hv).
Defined.

Lemma no_page_open_after_batch_witness :
  let good := Sample.get {["url" := JStr "https://example.com"]} in
  let bad := Sample.get {["url" := JStr "https://unreachable.invalid"]} in
  let s := Nat.iter 8 (serve Sample.happy 0%nat)
             (Nat.iter 4 (serve Sample.unreachable 1%nat) (boot [good; bad])) in
  rtc sstep (boot [good; bad]) s /\
  (forall s', ~ sstep s s') /\
  pages s = ∅.
Proof.
  intros good bad s.
  assert (Hs : rtc sstep (boot [good; bad]) s).
  { etrans; apply serve_iter_reachable. }
  assert (Hstuck : forall s', ~ sstep s s').
  { apply idle_stuck. vm_compute. reflexivity. }
  do 2 (split; [assumption|]).
  exact (no_page_open_after_batch [good; bad] s Hs Hstuck).
Defined.

Lemma numeric_option_as_string_witness :
  "width" ∈ numeric_options /\
  Z.abs 1440 < 2 ^ 53 /\
  capture (<["width" := JStr "1440"]> {["targetUrl" := JStr "https://example.com"]})
  = capture (<["width" := JNum 1440]> {["targetUrl" := JStr "https://example.com"]}).
Proof.
  assert (Hk : "width" ∈ numeric_options) by (unfold numeric_options; in_log).
  assert (Hn : Z.abs 1440 < 2 ^ 53) by reflexivity.
  split; [exact Hk|]. split; [exact Hn|].
  exact (numeric_option_as_string {["targetUrl" := JStr "https://example.com"]}
           "width" 1440 Hk Hn).
Defined.

Lemma parsed_batch_answers_each_request_witness :
  let good := Sample.get {["url" := JStr "https://example.com"]} in
  let bad := Sample.get {["url" := JStr "https://unreachable.invalid"]} in
  let s := serve Sample.unreachable 1%nat
             (serve Sample.unreachable 1%nat
                (serve Sample.unreachable 1%nat
                   (serve Sample.happy 0%nat (boot [good; bad])))) in
  Forall (fun req => thrown req = None) [good; bad] /\
  rtc sstep (boot [good; bad]) s /\ ~ crashed s.
Proof.
  intros good bad s.
  assert (Hparsed : Forall (fun req => thrown req = None) [good; bad])
    by (by repeat constructor).
  assert (Hs : rtc sstep (boot [good; bad]) s).
  { do 3 (etrans; [|apply serve_reachable]). apply serve_reachable. }
  do 2 (split; [assumption|]).
  exact (proj1 (proj2 (parsed_batch_answers_each_request [good; bad] s Hparsed Hs))).
Defined.
